(** * Command authorization and failsafe engine of [simulation.py]

    A shallow embedding of the security core of the battlefield simulation:
    the approval quorum, the nonce ledger, the rate limiter, the anomaly
    score with its failsafe ladder, the hash-chained black box, the
    engagement workflow and the kill switch.

    Python values are kept as the interpreter has them: [float] is IEEE-754
    binary64 ([spec_float] with [prec = 53], [emax = 1024]), [str] is the
    string of its UTF-8 bytes, [dict] is a finite map, and the reads of the
    outside world ([time.time], [time.strftime], [random.randint], the write
    to the log file) are answers of an oracle consumed in program order. *)

From Stdlib Require Import ZArith Lia Bool Ascii String.
From Stdlib Require Import Floats.SpecFloat.
From stdpp Require Import gmap strings list fin_maps pretty.

Local Open Scope Z_scope.

(* ===================================================================== *)
(** ** Python floats *)
(* ===================================================================== *)

Module Binary64.

Definition prec : Z := 53.
Definition emax : Z := 1024.

Definition float : Type := spec_float.

(** An integer that fits the mantissa, as a float. *)
Definition of_Z (n : Z) : float := binary_normalize prec emax n 0 false.

Definition add (x y : float) : float := SFadd prec emax x y.
Definition sub (x y : float) : float := SFsub prec emax x y.
Definition div (x y : float) : float := SFdiv prec emax x y.

(** [x < y], [x <= y], [x > y], [x >= y]: all four are false on a NaN. *)
Definition lt (x y : float) : bool := SFltb x y.
Definition le (x y : float) : bool := SFleb x y.
Definition gt (x y : float) : bool := SFltb y x.
Definition ge (x y : float) : bool := SFleb y x.

(** The builtins [min(a, b)] and [max(a, b)]: the first argument is kept
    unless the second is strictly smaller (strictly larger). *)
Definition min (a b : float) : float := if lt b a then b else a.
Definition max (a b : float) : float := if gt b a then b else a.

(** A decimal literal [n / d] is read as the double nearest to it, which
    is the correctly rounded quotient of the two integers. *)
Definition lit (n d : Z) : float := div (of_Z n) (of_Z d).

Definition f0_0 : float := S754_zero false.
Definition f0_02 : float := Eval vm_compute in lit 2 100.
Definition f0_3 : float := Eval vm_compute in lit 3 10.
Definition f0_5 : float := Eval vm_compute in lit 5 10.
Definition f0_6 : float := Eval vm_compute in lit 6 10.
Definition f0_7 : float := Eval vm_compute in lit 7 10.
Definition f0_8 : float := Eval vm_compute in lit 8 10.
Definition f0_9 : float := Eval vm_compute in lit 9 10.
Definition f1_0 : float := Eval vm_compute in of_Z 1.
Definition f1_3 : float := Eval vm_compute in lit 13 10.
Definition f2_2 : float := Eval vm_compute in lit 22 10.
Definition f3_0 : float := Eval vm_compute in of_Z 3.
Definition f6_0 : float := Eval vm_compute in of_Z 6.
Definition f12_0 : float := Eval vm_compute in of_Z 12.
Definition f20_0 : float := Eval vm_compute in of_Z 20.
Definition f45_0 : float := Eval vm_compute in of_Z 45.

(** [f"{x:.1f}"]: the exact value rounded to one decimal, ties to even. *)
Definition tenths (m : positive) (e : Z) : Z :=
  match e with
  | Zneg k =>
      let den := 2 ^ Zpos k in
      let q := (Zpos m * 10) / den in
      let r := (Zpos m * 10) mod den in
      match (2 * r ?= den) with
      | Lt => q
      | Eq => if Z.even q then q else q + 1
      | Gt => q + 1
      end
  | _ => Zpos m * 10 * 2 ^ e
  end.

Definition format_1f (x : float) : string :=
  match x with
  | S754_nan => "nan"
  | S754_infinity s => if s then "-inf" else "inf"
  | S754_zero s => if s then "-0.0" else "0.0"
  | S754_finite s m e =>
      let t := tenths m e in
      (if s then "-" else "") +:+ pretty (t / 10) +:+ "." +:+ pretty (t mod 10)
  end.

End Binary64.

Export Binary64(float).

(* ===================================================================== *)
(** ** [hashlib.sha256(...).hexdigest()] *)
(* ===================================================================== *)

(** The digest comes from the interpreter's library; it is written out
    here after FIPS 180-4 so that ledger lines can be evaluated.  Words are
    32-bit integers in [Z], reduced after every addition and left shift. *)
Module Sha256.

Definition mask32 : Z := 0xffffffff.
Definition add32 (a b : Z) : Z := Z.land (a + b) mask32.
Definition rotr (n x : Z) : Z :=
  Z.lor (Z.shiftr x n) (Z.land (Z.shiftl x (32 - n)) mask32).
Definition not32 (x : Z) : Z := Z.lxor x mask32.

Definition Ch (x y z : Z) : Z := Z.lxor (Z.land x y) (Z.land (not32 x) z).
Definition Maj (x y z : Z) : Z :=
  Z.lxor (Z.lxor (Z.land x y) (Z.land x z)) (Z.land y z).
Definition Sigma0 (x : Z) : Z := Z.lxor (Z.lxor (rotr 2 x) (rotr 13 x)) (rotr 22 x).
Definition Sigma1 (x : Z) : Z := Z.lxor (Z.lxor (rotr 6 x) (rotr 11 x)) (rotr 25 x).
Definition sigma0 (x : Z) : Z := Z.lxor (Z.lxor (rotr 7 x) (rotr 18 x)) (Z.shiftr x 3).
Definition sigma1 (x : Z) : Z := Z.lxor (Z.lxor (rotr 17 x) (rotr 19 x)) (Z.shiftr x 10).

(** The constants of the standard: the first 32 bits of the fractional parts
    of the cube roots of the first 64 primes, and of the square roots of the
    first 8 primes for the initial hash value. *)
Definition is_prime (p : Z) : bool :=
  forallb (fun d => negb (p mod Z.of_nat d =? 0)) (seq 2 (Z.to_nat p - 2)).

Definition first_primes (n : nat) : list Z :=
  firstn n (List.filter is_prime (map Z.of_nat (seq 2 400))).

(** The largest [r] below [2 ^ k] with [r ^ deg <= n], bit by bit from the top. *)
Fixpoint root_bits (k : nat) (deg n r : Z) : Z :=
  match k with
  | O => r
  | S k' =>
      let r' := r + 2 ^ Z.of_nat k' in
      root_bits k' deg n (if r' ^ deg <=? n then r' else r)
  end.

Definition frac_root (deg p : Z) : Z :=
  Z.land (root_bits 40 deg (p * 2 ^ (32 * deg)) 0) mask32.

Definition K : list Z := Eval vm_compute in map (frac_root 3) (first_primes 64).

Definition H0 : list Z := Eval vm_compute in map (frac_root 2) (first_primes 8).

Definition bytes_of_string (s : string) : list Z :=
  map (fun c => Z.of_N (N_of_ascii c)) (list_ascii_of_string s).

(** Big-endian bytes of [x], [n] of them. *)
Fixpoint be_bytes (n : nat) (x : Z) : list Z :=
  match n with
  | O => []
  | S n' => Z.land (Z.shiftr x (8 * Z.of_nat n')) 0xff :: be_bytes n' x
  end.

(** Padding: a one bit, zeros up to 56 modulo 64, the bit length on 8 bytes. *)
Definition pad (msg : list Z) : list Z :=
  let len := Z.of_nat (length msg) in
  let zeros := Z.to_nat ((55 - len) mod 64) in
  msg ++ 0x80 :: repeat 0 zeros ++ be_bytes 8 (8 * len).

Fixpoint words (fuel : nat) (bs : list Z) : list Z :=
  match fuel, bs with
  | S fuel', b0 :: b1 :: b2 :: b3 :: rest =>
      (Z.lor (Z.shiftl b0 24) (Z.lor (Z.shiftl b1 16) (Z.lor (Z.shiftl b2 8) b3)))
        :: words fuel' rest
  | _, _ => []
  end.

(** The message schedule, newest word first: [ws] holds W[t-1] .. W[0]. *)
Fixpoint schedule (n : nat) (ws : list Z) : list Z :=
  match n with
  | O => ws
  | S n' =>
      let w := add32 (add32 (add32 (sigma1 (nth 1 ws 0)) (nth 6 ws 0))
                            (sigma0 (nth 14 ws 0))) (nth 15 ws 0) in
      schedule n' (w :: ws)
  end.

Record regs := Regs { ra : Z; rb : Z; rc : Z; rd : Z; re : Z; rf : Z; rg : Z; rh : Z }.

Definition round (r : regs) (kw : Z * Z) : regs :=
  let t1 := add32 (add32 (add32 (add32 (rh r) (Sigma1 (re r))) (Ch (re r) (rf r) (rg r)))
                         (fst kw)) (snd kw) in
  let t2 := add32 (Sigma0 (ra r)) (Maj (ra r) (rb r) (rc r)) in
  Regs (add32 t1 t2) (ra r) (rb r) (rc r) (add32 (rd r) t1) (re r) (rf r) (rg r).

Definition regs_of (h : list Z) : regs :=
  Regs (nth 0 h 0) (nth 1 h 0) (nth 2 h 0) (nth 3 h 0)
       (nth 4 h 0) (nth 5 h 0) (nth 6 h 0) (nth 7 h 0).

Definition compress (h : list Z) (block : list Z) : list Z :=
  let w := rev (schedule 48 (rev block)) in
  let r0 := regs_of h in
  let r := fold_left round (combine K w) r0 in
  [ add32 (ra r0) (ra r); add32 (rb r0) (rb r); add32 (rc r0) (rc r);
    add32 (rd r0) (rd r); add32 (re r0) (re r); add32 (rf r0) (rf r);
    add32 (rg r0) (rg r); add32 (rh r0) (rh r) ].

Fixpoint blocks (fuel : nat) (h : list Z) (ws : list Z) : list Z :=
  match fuel, ws with
  | S fuel', _ :: _ => blocks fuel' (compress h (firstn 16 ws)) (skipn 16 ws)
  | _, _ => h
  end.

Definition digest (msg : list Z) : list Z :=
  let bs := pad msg in
  let ws := words (length bs) bs in
  blocks (length ws) H0 ws.

Definition hex_digit (d : Z) : ascii :=
  ascii_of_N (Z.to_N (if d <? 10 then 48 + d else 87 + d)).

Fixpoint hex_word (n : nat) (x : Z) : string :=
  match n with
  | O => EmptyString
  | S n' => String (hex_digit (Z.land (Z.shiftr x (4 * Z.of_nat n')) 0xf)) (hex_word n' x)
  end.

Definition hexdigest (s : string) : string :=
  String.concat "" (map (hex_word 8) (digest (bytes_of_string s))).

End Sha256.

(* ===================================================================== *)
(** ** Program state *)
(* ===================================================================== *)

Definition Color : Type := (Z * Z * Z)%type.
Definition WHITE : Color := (255, 255, 255).
Definition GREEN : Color := (60, 179, 113).
Definition RED : Color := (220, 20, 60).
Definition YELLOW : Color := (255, 215, 0).
Definition GREY : Color := (128, 128, 128).
Definition CYAN : Color := (0, 255, 255).
Definition MAGENTA : Color := (255, 0, 255).
Definition ORANGE : Color := (255, 140, 0).

(** An entry of [game_log]. *)
Record LogEntry := { source : string; message : string; color : Color }.

(** [class BlackBoxLedger]: the attributes [path] and [prev_hash]. *)
Record BlackBoxLedger := { path : string; prev_hash : string }.

(** [class SecurityEngine]. *)
Record SecurityEngine := {
  approvals : gmap string float;      (* officer_key -> ts *)
  approvals_ttl : float;
  required_engage : Z;
  required_kill : Z;
  ledger : gmap Z float;              (* nonce -> ts *)
  nonce_ttl : float;
  key_epoch : Z;
  key_rotate_interval : float;
  last_rotate : float;
  cmd_times : list float;             (* deque, oldest first *)
  rate_window : float;
  max_cmds : Z;
  blackbox : BlackBoxLedger;
  anomaly_score : float;
}.

(** The attributes of [class Robot] that the kill paths read or write. *)
Record Robot := { name : string; team : string; alive : bool; state : string }.

(** The module globals the security paths touch, the content of the log
    file, and the number of answers already taken from the oracle.  Robots
    are objects shared between the two army lists and [selected_robot]:
    [robots] is the object store and the three globals hold indices into it. *)
Record World := {
  SECURITY : SecurityEngine;
  game_log : list LogEntry;
  failsafe_mode : string;
  rtb_active : bool;
  kill_switch_armed : bool;
  friendly_fire_authorized : bool;
  robots : list Robot;
  friendly_robots : list nat;
  enemy_robots : list nat;
  selected_robot : option nat;
  blackbox_file : option string;      (* [None]: the path does not exist *)
  reads : nat;
}.

(** Attribute assignments. *)
Definition set_approvals (v : gmap string float) (e : SecurityEngine) : SecurityEngine :=
  {| approvals := v; approvals_ttl := approvals_ttl e; required_engage := required_engage e;
     required_kill := required_kill e; ledger := ledger e; nonce_ttl := nonce_ttl e;
     key_epoch := key_epoch e; key_rotate_interval := key_rotate_interval e;
     last_rotate := last_rotate e; cmd_times := cmd_times e; rate_window := rate_window e;
     max_cmds := max_cmds e; blackbox := blackbox e; anomaly_score := anomaly_score e |}.

Definition set_ledger (v : gmap Z float) (e : SecurityEngine) : SecurityEngine :=
  {| approvals := approvals e; approvals_ttl := approvals_ttl e; required_engage := required_engage e;
     required_kill := required_kill e; ledger := v; nonce_ttl := nonce_ttl e;
     key_epoch := key_epoch e; key_rotate_interval := key_rotate_interval e;
     last_rotate := last_rotate e; cmd_times := cmd_times e; rate_window := rate_window e;
     max_cmds := max_cmds e; blackbox := blackbox e; anomaly_score := anomaly_score e |}.

Definition set_key_epoch (v : Z) (e : SecurityEngine) : SecurityEngine :=
  {| approvals := approvals e; approvals_ttl := approvals_ttl e; required_engage := required_engage e;
     required_kill := required_kill e; ledger := ledger e; nonce_ttl := nonce_ttl e;
     key_epoch := v; key_rotate_interval := key_rotate_interval e;
     last_rotate := last_rotate e; cmd_times := cmd_times e; rate_window := rate_window e;
     max_cmds := max_cmds e; blackbox := blackbox e; anomaly_score := anomaly_score e |}.

Definition set_last_rotate (v : float) (e : SecurityEngine) : SecurityEngine :=
  {| approvals := approvals e; approvals_ttl := approvals_ttl e; required_engage := required_engage e;
     required_kill := required_kill e; ledger := ledger e; nonce_ttl := nonce_ttl e;
     key_epoch := key_epoch e; key_rotate_interval := key_rotate_interval e;
     last_rotate := v; cmd_times := cmd_times e; rate_window := rate_window e;
     max_cmds := max_cmds e; blackbox := blackbox e; anomaly_score := anomaly_score e |}.

Definition set_cmd_times (v : list float) (e : SecurityEngine) : SecurityEngine :=
  {| approvals := approvals e; approvals_ttl := approvals_ttl e; required_engage := required_engage e;
     required_kill := required_kill e; ledger := ledger e; nonce_ttl := nonce_ttl e;
     key_epoch := key_epoch e; key_rotate_interval := key_rotate_interval e;
     last_rotate := last_rotate e; cmd_times := v; rate_window := rate_window e;
     max_cmds := max_cmds e; blackbox := blackbox e; anomaly_score := anomaly_score e |}.

Definition set_blackbox (v : BlackBoxLedger) (e : SecurityEngine) : SecurityEngine :=
  {| approvals := approvals e; approvals_ttl := approvals_ttl e; required_engage := required_engage e;
     required_kill := required_kill e; ledger := ledger e; nonce_ttl := nonce_ttl e;
     key_epoch := key_epoch e; key_rotate_interval := key_rotate_interval e;
     last_rotate := last_rotate e; cmd_times := cmd_times e; rate_window := rate_window e;
     max_cmds := max_cmds e; blackbox := v; anomaly_score := anomaly_score e |}.

Definition set_anomaly_score (v : float) (e : SecurityEngine) : SecurityEngine :=
  {| approvals := approvals e; approvals_ttl := approvals_ttl e; required_engage := required_engage e;
     required_kill := required_kill e; ledger := ledger e; nonce_ttl := nonce_ttl e;
     key_epoch := key_epoch e; key_rotate_interval := key_rotate_interval e;
     last_rotate := last_rotate e; cmd_times := cmd_times e; rate_window := rate_window e;
     max_cmds := max_cmds e; blackbox := blackbox e; anomaly_score := v |}.

Definition set_SECURITY (v : SecurityEngine) (w : World) : World :=
  {| SECURITY := v; game_log := game_log w; failsafe_mode := failsafe_mode w;
     rtb_active := rtb_active w; kill_switch_armed := kill_switch_armed w;
     friendly_fire_authorized := friendly_fire_authorized w; robots := robots w;
     friendly_robots := friendly_robots w; enemy_robots := enemy_robots w;
     selected_robot := selected_robot w; blackbox_file := blackbox_file w; reads := reads w |}.

Definition set_game_log (v : list LogEntry) (w : World) : World :=
  {| SECURITY := SECURITY w; game_log := v; failsafe_mode := failsafe_mode w;
     rtb_active := rtb_active w; kill_switch_armed := kill_switch_armed w;
     friendly_fire_authorized := friendly_fire_authorized w; robots := robots w;
     friendly_robots := friendly_robots w; enemy_robots := enemy_robots w;
     selected_robot := selected_robot w; blackbox_file := blackbox_file w; reads := reads w |}.

Definition set_failsafe_mode (v : string) (w : World) : World :=
  {| SECURITY := SECURITY w; game_log := game_log w; failsafe_mode := v;
     rtb_active := rtb_active w; kill_switch_armed := kill_switch_armed w;
     friendly_fire_authorized := friendly_fire_authorized w; robots := robots w;
     friendly_robots := friendly_robots w; enemy_robots := enemy_robots w;
     selected_robot := selected_robot w; blackbox_file := blackbox_file w; reads := reads w |}.

Definition set_rtb_active (v : bool) (w : World) : World :=
  {| SECURITY := SECURITY w; game_log := game_log w; failsafe_mode := failsafe_mode w;
     rtb_active := v; kill_switch_armed := kill_switch_armed w;
     friendly_fire_authorized := friendly_fire_authorized w; robots := robots w;
     friendly_robots := friendly_robots w; enemy_robots := enemy_robots w;
     selected_robot := selected_robot w; blackbox_file := blackbox_file w; reads := reads w |}.

Definition set_kill_switch_armed (v : bool) (w : World) : World :=
  {| SECURITY := SECURITY w; game_log := game_log w; failsafe_mode := failsafe_mode w;
     rtb_active := rtb_active w; kill_switch_armed := v;
     friendly_fire_authorized := friendly_fire_authorized w; robots := robots w;
     friendly_robots := friendly_robots w; enemy_robots := enemy_robots w;
     selected_robot := selected_robot w; blackbox_file := blackbox_file w; reads := reads w |}.

Definition set_friendly_fire_authorized (v : bool) (w : World) : World :=
  {| SECURITY := SECURITY w; game_log := game_log w; failsafe_mode := failsafe_mode w;
     rtb_active := rtb_active w; kill_switch_armed := kill_switch_armed w;
     friendly_fire_authorized := v; robots := robots w;
     friendly_robots := friendly_robots w; enemy_robots := enemy_robots w;
     selected_robot := selected_robot w; blackbox_file := blackbox_file w; reads := reads w |}.

Definition set_robots (v : list Robot) (w : World) : World :=
  {| SECURITY := SECURITY w; game_log := game_log w; failsafe_mode := failsafe_mode w;
     rtb_active := rtb_active w; kill_switch_armed := kill_switch_armed w;
     friendly_fire_authorized := friendly_fire_authorized w; robots := v;
     friendly_robots := friendly_robots w; enemy_robots := enemy_robots w;
     selected_robot := selected_robot w; blackbox_file := blackbox_file w; reads := reads w |}.

Definition set_blackbox_file (v : option string) (w : World) : World :=
  {| SECURITY := SECURITY w; game_log := game_log w; failsafe_mode := failsafe_mode w;
     rtb_active := rtb_active w; kill_switch_armed := kill_switch_armed w;
     friendly_fire_authorized := friendly_fire_authorized w; robots := robots w;
     friendly_robots := friendly_robots w; enemy_robots := enemy_robots w;
     selected_robot := selected_robot w; blackbox_file := v; reads := reads w |}.

Definition set_reads (v : nat) (w : World) : World :=
  {| SECURITY := SECURITY w; game_log := game_log w; failsafe_mode := failsafe_mode w;
     rtb_active := rtb_active w; kill_switch_armed := kill_switch_armed w;
     friendly_fire_authorized := friendly_fire_authorized w; robots := robots w;
     friendly_robots := friendly_robots w; enemy_robots := enemy_robots w;
     selected_robot := selected_robot w; blackbox_file := blackbox_file w; reads := v |}.

(* ===================================================================== *)
(** ** The outside world and the monad of the program *)
(* ===================================================================== *)

(** The [k]-th read of the outside world: every read takes the next answer. *)
Record Env := {
  env_time : nat -> float;            (* time.time() *)
  env_strftime : nat -> string;       (* time.strftime("%Y-%m-%d %H:%M:%S", time.localtime()) *)
  env_random : nat -> Z;              (* the generator behind random.randint *)
  env_write_ok : nat -> bool;         (* open(path, "ab") and write succeed *)
}.

Definition M (A : Type) : Type := World -> A * World.

#[export] Instance M_ret : MRet M := fun A (a : A) w => (a, w).
#[export] Instance M_bind : MBind M :=
  fun A B (k : A -> M B) (m : M A) w => let '(a, w') := m w in k a w'.

Definition gets {A} (f : World -> A) : M A := fun w => (f w, w).
Definition modify (f : World -> World) : M unit := fun w => (tt, f w).
Definition modify_SECURITY (f : SecurityEngine -> SecurityEngine) : M unit :=
  modify (fun w => set_SECURITY (f (SECURITY w)) w).
Definition when (b : bool) (m : M unit) : M unit := if b then m else mret tt.

(** The world after running [m]; the value [m] returns. *)
Definition exec {A} (m : M A) (w : World) : World := snd (m w).
Definition eval {A} (m : M A) (w : World) : A := fst (m w).

(* ===================================================================== *)
(** ** The program *)
(* ===================================================================== *)

Definition nl : string := String (ascii_of_nat 10) EmptyString.

(** Position of the first occurrence of [sep] in [s], if any. *)
Fixpoint find_sep (sep s : string) : option nat :=
  if String.prefix sep s then Some O
  else match s with
       | EmptyString => None
       | String _ s' => S <$> find_sep sep s'
       end.

(** [for line in f: last = line]: the last line of a binary file, with its
    newline when it has one. *)
Fixpoint last_line (cur : string) (s : string) : option string :=
  match s with
  | EmptyString => if decide (cur = EmptyString) then None else Some cur
  | String c s' =>
      if decide (c = ascii_of_nat 10)
      then match last_line EmptyString s' with
           | Some l => Some l
           | None => Some (cur +:+ nl)
           end
      else last_line (cur +:+ String c EmptyString) s'
  end.

(** [s.rstrip("\n")]. *)
Fixpoint rstrip_nl (s : string) : string :=
  match s with
  | EmptyString => EmptyString
  | String c s' =>
      match rstrip_nl s' with
      | EmptyString => if decide (c = ascii_of_nat 10) then EmptyString else String c EmptyString
      | r => String c r
      end
  end.

Section Program.

Variable E : Env.

(** The decoder behind [bytes.decode("utf-8", errors="ignore")], which
    drops the bytes that are not valid UTF-8 and keeps the rest. *)
Variable decode_ignore : string -> string.

Definition next_read : M nat :=
  fun w => (reads w, set_reads (S (reads w)) w).

Definition time_time : M float := k ← next_read; mret (env_time E k).
Definition time_strftime : M string := k ← next_read; mret (env_strftime E k).
Definition io_ok : M bool := k ← next_read; mret (env_write_ok E k).
Definition random_randint (lo hi : Z) : M Z :=
  k ← next_read; mret (lo + env_random E k mod (hi - lo + 1)).

(** *** [class BlackBoxLedger] *)

(** [__init__]: any failure while reading falls back to the genesis value. *)
Definition BlackBoxLedger_init (p : string) : M BlackBoxLedger :=
  file ← gets blackbox_file;
  match file with
  | None => mret {| path := p; prev_hash := "GENESIS" |}
  | Some content =>
      ok ← io_ok;
      if negb ok then mret {| path := p; prev_hash := "GENESIS" |}
      else
        match last_line EmptyString content with
        | Some last =>
            let line := rstrip_nl (decode_ignore last) in
            match find_sep " | " line with
            | Some i => mret {| path := p; prev_hash := substring 0 i line |}
            | None => mret {| path := p; prev_hash := "GENESIS" |}
            end
        | None => mret {| path := p; prev_hash := "GENESIS" |}
        end
  end.

(** The digest of one entry and the line written for it. *)
Definition entry_hash (prev payload : string) : string :=
  Sha256.hexdigest (prev +:+ payload).
Definition entry_line (h payload : string) : string :=
  h +:+ " | " +:+ payload +:+ nl.

(** [append]: a failed write leaves both the file and [prev_hash] as they
    were. *)
Definition BlackBoxLedger_append (text : string) : M unit :=
  ts ← time_strftime;
  let payload := ts +:+ " " +:+ text in
  bb ← gets (fun w => blackbox (SECURITY w));
  let h := entry_hash (prev_hash bb) payload in
  let line := entry_line h payload in
  ok ← io_ok;
  if (ok : bool) return M unit then
    modify (fun w => set_blackbox_file (Some (default EmptyString (blackbox_file w) +:+ line)) w);;
    modify_SECURITY (set_blackbox {| path := path bb; prev_hash := h |})
  else mret tt.

(** *** Helpers *)

Definition log_event (src msg : string) (col : Color) : M unit :=
  modify (fun w => set_game_log (game_log w ++ [{| source := src; message := msg; color := col |}]) w);;
  n ← gets (fun w => length (game_log w));
  when (16 <? Z.of_nat n) (modify (fun w => set_game_log (tail (game_log w)) w));;
  BlackBoxLedger_append ("[" +:+ src +:+ "] " +:+ msg).

(** [for x in l: f(x)]. *)
Fixpoint for_each {A} (l : list A) (f : A -> M unit) : M unit :=
  match l with
  | [] => mret tt
  | x :: l' => f x;; for_each l' f
  end.

(** *** [class SecurityEngine] *)

Definition blackbox_append (text : string) : M unit := BlackBoxLedger_append text.

Definition rotate_keys_if_needed : M unit :=
  t ← time_time;
  e ← gets SECURITY;
  if Binary64.gt (Binary64.sub t (last_rotate e)) (key_rotate_interval e) return M unit then
    modify_SECURITY (fun e => set_key_epoch (key_epoch e + 1) e);;
    t' ← time_time;
    modify_SECURITY (set_last_rotate t');;
    k ← gets (fun w => key_epoch (SECURITY w));
    log_event "KMS" ("Rotated keys to epoch " +:+ pretty k +:+ ".") CYAN
  else mret tt.

(** The test of the comprehension in [clear_old_approvals]. *)
Definition approval_fresh (now ttl : float) (kt : string * float) : Prop :=
  Binary64.le (Binary64.sub now kt.2) ttl = true.

#[export] Instance approval_fresh_dec now ttl kt : Decision (approval_fresh now ttl kt) :=
  bool_eq_dec _ _.

Definition clear_old_approvals : M unit :=
  now ← time_time;
  modify_SECURITY (fun e => set_approvals (filter (approval_fresh now (approvals_ttl e)) (approvals e)) e).

Definition add_approval (officer : string) : M unit :=
  t ← time_time;
  modify_SECURITY (fun e => set_approvals (<[officer := t]> (approvals e)) e);;
  n ← gets (fun w => size (approvals (SECURITY w)));
  log_event "AUTH" ("Approval by Officer-" +:+ officer +:+ " recorded (" +:+ pretty n +:+ "/3).") GREEN.

Definition approvals_ok (action : string) : M bool :=
  clear_old_approvals;;
  e ← gets SECURITY;
  let count := Z.of_nat (size (approvals e)) in
  let need := if String.eqb action "engage" then required_engage e else required_kill e in
  mret (need <=? count).

(** The test of the cleaning loop of [validate_nonce]: the entry stays. *)
Definition nonce_live (now ttl : float) (nt : Z * float) : Prop :=
  Binary64.gt (Binary64.sub now nt.2) ttl = false.

#[export] Instance nonce_live_dec now ttl nt : Decision (nonce_live now ttl nt) :=
  bool_eq_dec _ _.

Definition validate_nonce (nonce_ts : Z * float) : M (bool * string) :=
  let nonce := nonce_ts.1 in
  let ts := nonce_ts.2 in
  now ← time_time;
  e ← gets SECURITY;
  if bool_decide (is_Some (ledger e !! nonce)) return M (bool * string) then
    mret (false, "Replay detected (nonce already used)")
  else if Binary64.gt (Binary64.sub now ts) (nonce_ttl e) then
    mret (false, "Expired command TTL")
  else
    modify_SECURITY (fun e => set_ledger (<[nonce := ts]> (ledger e)) e);;
    modify_SECURITY (fun e => set_ledger (filter (nonce_live now (nonce_ttl e)) (ledger e)) e);;
    mret (true, "Nonce accepted").

(** The [while] loop of [check_rate_limit]. *)
Fixpoint evict (now window : float) (q : list float) : list float :=
  match q with
  | t :: q' => if Binary64.gt (Binary64.sub now t) window then evict now window q' else q
  | [] => []
  end.

Definition check_rate_limit : M bool :=
  now ← time_time;
  modify_SECURITY (fun e => set_cmd_times (cmd_times e ++ [now]) e);;
  modify_SECURITY (fun e => set_cmd_times (evict now (rate_window e) (cmd_times e)) e);;
  e ← gets SECURITY;
  mret (Z.of_nat (length (cmd_times e)) <=? max_cmds e).

Definition severity : gmap string float :=
  list_to_map
    [ ("replay_fail", Binary64.f0_7); ("rate_limit", Binary64.f0_5);
      ("rogue_node", Binary64.f0_9); ("network_compromise", Binary64.f0_6);
      ("civilian", Binary64.f1_0); ("out_of_control", Binary64.f0_8) ].

Definition incident (kind : string) : M unit :=
  let delta := default Binary64.f0_3 (severity !! kind) in
  modify_SECURITY (fun e =>
    set_anomaly_score (Binary64.min Binary64.f3_0 (Binary64.add (anomaly_score e) delta)) e);;
  s ← gets (fun w => anomaly_score (SECURITY w));
  log_event "IDS" ("Incident '" +:+ kind +:+ "' raised. Anomaly score=" +:+ Binary64.format_1f s) ORANGE.

Definition decay_anomaly : M unit :=
  modify_SECURITY (fun e =>
    set_anomaly_score (Binary64.max Binary64.f0_0 (Binary64.sub (anomaly_score e) Binary64.f0_02)) e).

Definition failsafe_state : M string :=
  s ← gets (fun w => anomaly_score (SECURITY w));
  if Binary64.ge s Binary64.f2_2 then mret "RTB"
  else if Binary64.ge s Binary64.f1_3 then mret "HOLD"
  else if Binary64.ge s Binary64.f0_6 then mret "DEGRADE"
  else mret "NONE".

(** [SecurityEngine()] and the initial values of the globals. *)
Definition SecurityEngine_init : M SecurityEngine :=
  t ← time_time;
  bb ← BlackBoxLedger_init "blackbox.log";
  mret {| approvals := ∅; approvals_ttl := Binary64.f12_0; required_engage := 2;
          required_kill := 2; ledger := ∅; nonce_ttl := Binary64.f20_0; key_epoch := 0;
          key_rotate_interval := Binary64.f45_0; last_rotate := t; cmd_times := [];
          rate_window := Binary64.f6_0; max_cmds := 8; blackbox := bb;
          anomaly_score := Binary64.f0_0 |}.

(** *** Kill actions *)

(** [Robot.kill], and the call of it on the object with index [i]. *)
Definition Robot_kill (r : Robot) : Robot :=
  if alive r
  then {| name := name r; team := team r; alive := false; state := "SHUTDOWN" |}
  else r.

Definition kill_at (i : nat) : M unit :=
  modify (fun w => set_robots (alter Robot_kill i (robots w)) w).

(** The object [selected_robot] refers to; a selection always names a
    stored object. *)
Definition selected : M (option (nat * Robot)) :=
  gets (fun w => i ← selected_robot w; r ← robots w !! i; Some (i, r)).

Definition side_name (r : Robot) : string :=
  if String.eqb (team r) "FRIENDLY" then "Friendly" else "Enemy".

Definition kill_selected_robot : M unit :=
  sel ← selected;
  match sel with
  | Some (i, r) =>
      if alive r return M unit then
        kill_at i;;
        log_event "HUMAN-CMD" ("Killed selected robot " +:+ name r +:+ " (" +:+ side_name r +:+ ").") GREEN
      else log_event "SYSTEM" "No selected robot to kill." GREY
  | None => log_event "SYSTEM" "No selected robot to kill." GREY
  end.

Definition kill_selected_army : M unit :=
  sel ← selected;
  match sel with
  | None => log_event "SYSTEM" "Select any robot first to kill its army." GREY
  | Some (_, r) =>
      army ← gets (if String.eqb (team r) "FRIENDLY" then friendly_robots else enemy_robots);
      for_each army kill_at;;
      log_event "HUMAN-CMD" ("Entire " +:+ side_name r +:+ " army neutralized.") MAGENTA
  end.

Definition kill_all_robots : M unit :=
  all ← gets (fun w => friendly_robots w ++ enemy_robots w);
  for_each all kill_at;;
  log_event "HUMAN-CMD" "All robots neutralized (Fleet-level)." MAGENTA.

(** *** Workflows *)

Definition start_engagement_workflow : M bool :=
  q ← approvals_ok "engage";
  if negb q then
    log_event "HUMAN" "Engagement request pending: Need 2-of-3 approvals (Q/W/E)." YELLOW;;
    mret false
  else
    r ← check_rate_limit;
    if negb r then
      incident "rate_limit";;
      log_event "IDS" "Command rate-limit exceeded. Engagement blocked." ORANGE;;
      mret false
    else
      n ← random_randint 1 (10 ^ 7);
      ts ← time_time;
      v ← validate_nonce (n, ts);
      if negb v.1 then
        incident "replay_fail";;
        log_event "SECURE" ("Command nonce rejected: " +:+ v.2 +:+ ".") ORANGE;;
        mret false
      else
        log_event "SECURE" "Signed control frame verified. Engagement authorized." GREEN;;
        mret true.

Definition arm_kill_switch : M unit :=
  modify (set_kill_switch_armed true);;
  log_event "KILL-SW" "Kill-switch request armed. Need 2-of-3 approvals (Q/W/E) then press K/L/U." YELLOW.

(** The three ways out of [execute_kill_switch].  The function returns
    [None] on each of them; the model returns which one was taken. *)
Inductive KillExit := Executed | DeniedNotArmed | DeniedQuorum.

Definition dispatch_kill (kind : string) : M unit :=
  if String.eqb kind "unit" then kill_selected_robot
  else if String.eqb kind "army" then kill_selected_army
  else kill_all_robots.

Definition execute_kill_switch (kind : string) : M KillExit :=
  armed ← gets kill_switch_armed;
  if negb armed then
    log_event "KILL-SW" "Kill-switch not armed. Press J to request." GREY;;
    mret DeniedNotArmed
  else
    q ← approvals_ok "kill";
    if negb q then
      log_event "KILL-SW" "Approvals insufficient (need 2-of-3)." ORANGE;;
      mret DeniedQuorum
    else
      log_event "KILL-SW" "PATH-1: RoT attestation OK → Signed control frame accepted." CYAN;;
      log_event "KILL-SW" "PATH-2: OOB network path + KMS epoch keys validated." CYAN;;
      dispatch_kill kind;;
      modify (set_kill_switch_armed false);;
      mret Executed.

Definition update_failsafe : M unit :=
  rotate_keys_if_needed;;
  decay_anomaly;;
  new_mode ← failsafe_state;
  cur ← gets failsafe_mode;
  if negb (String.eqb new_mode cur) return M unit then
    modify (set_failsafe_mode new_mode);;
    if String.eqb new_mode "DEGRADE" then
      log_event "FAILSAFE" "System degrading capabilities (reduced fire rate)." ORANGE
    else if String.eqb new_mode "HOLD" then
      log_event "FAILSAFE" "Hold Fire engaged for all friendlies." ORANGE;;
      modify (set_friendly_fire_authorized false)
    else if String.eqb new_mode "RTB" then
      log_event "FAILSAFE" "Return-To-Base initiated for friendlies." RED;;
      modify (set_rtb_active true)
    else
      log_event "FAILSAFE" "System recovered to normal ops." GREEN;;
      modify (set_rtb_active false)
  else mret tt.

(** The handler of the R key in [main]. *)
Definition force_rtb : M unit :=
  log_event "HUMAN-CMD" "Manual RTB initiated." ORANGE;;
  modify_SECURITY (fun e => set_anomaly_score (Binary64.max (anomaly_score e) Binary64.f2_2) e);;
  update_failsafe.

(** The globals when the module has been loaded, [file] being the content
    of the log file found on disk. *)
Definition module_init (file : option string) : World :=
  let w0 :=
    {| SECURITY := {| approvals := ∅; approvals_ttl := Binary64.f12_0; required_engage := 2;
                      required_kill := 2; ledger := ∅; nonce_ttl := Binary64.f20_0;
                      key_epoch := 0; key_rotate_interval := Binary64.f45_0;
                      last_rotate := Binary64.f0_0; cmd_times := [];
                      rate_window := Binary64.f6_0; max_cmds := 8;
                      blackbox := {| path := "blackbox.log"; prev_hash := "GENESIS" |};
                      anomaly_score := Binary64.f0_0 |};
       game_log := []; failsafe_mode := "NONE"; rtb_active := false;
       kill_switch_armed := false; friendly_fire_authorized := false;
       robots := []; friendly_robots := []; enemy_robots := []; selected_robot := None;
       blackbox_file := file; reads := O |} in
  let '(e, w1) := SecurityEngine_init w0 in
  set_SECURITY e w1.

End Program.

(* ===================================================================== *)
(** ** Vocabulary of the design *)
(* ===================================================================== *)

(** The three answers of [validate_nonce]. *)
Definition Accepted : bool * string := (true, "Nonce accepted").
Definition RejectedReplay : bool * string := (false, "Replay detected (nonce already used)").
Definition RejectedExpired : bool * string := (false, "Expired command TTL").

(** Severity order of the failsafe ladder: NONE < DEGRADE < HOLD < RTB. *)
Definition mode_rank (mode : string) : Z :=
  if String.eqb mode "RTB" then 3
  else if String.eqb mode "HOLD" then 2
  else if String.eqb mode "DEGRADE" then 1
  else 0.

(** [0.0 <= s <= 3.0], with the comparisons of the interpreter. *)
Definition in_range (s : float) : bool :=
  Binary64.le Binary64.f0_0 s && Binary64.le s Binary64.f3_0.

(** What [incident] and [decay_anomaly] do to the score. *)
Definition weight (kind : string) : float := default Binary64.f0_3 (severity !! kind).
Definition raised (kind : string) (s : float) : float :=
  Binary64.min Binary64.f3_0 (Binary64.add s (weight kind)).
Definition decayed (s : float) : float :=
  Binary64.max Binary64.f0_0 (Binary64.sub s Binary64.f0_02).

(** Everything of the engine but its black box, and everything of the
    globals but the log, the log file and the oracle position: the part of
    the state that [log_event] cannot touch. *)
Definition engine_core (e : SecurityEngine) :=
  (approvals e, approvals_ttl e, required_engage e, required_kill e, ledger e, nonce_ttl e,
   key_epoch e, key_rotate_interval e, last_rotate e, cmd_times e, rate_window e, max_cmds e,
   anomaly_score e).
Definition world_core (w : World) :=
  (engine_core (SECURITY w), failsafe_mode w, rtb_active w, kill_switch_armed w,
   friendly_fire_authorized w, robots w, friendly_robots w, enemy_robots w, selected_robot w).

(** The calls the event loop, the robots and the attacker make into the
    engine, and a run of them in order. *)
Inductive Op :=
| OpAddApproval (officer : string)
| OpEngage
| OpArm
| OpExecute (kind : string)
| OpValidate (nonce_ts : Z * float)
| OpRateLimit
| OpIncident (kind : string)
| OpTick
| OpForceRtb.

Definition run_op (E : Env) (o : Op) : M unit :=
  match o with
  | OpAddApproval officer => add_approval E officer
  | OpEngage => start_engagement_workflow E;; mret tt
  | OpArm => arm_kill_switch E
  | OpExecute kind => execute_kill_switch E kind;; mret tt
  | OpValidate nonce_ts => validate_nonce E nonce_ts;; mret tt
  | OpRateLimit => check_rate_limit E;; mret tt
  | OpIncident kind => incident E kind
  | OpTick => update_failsafe E
  | OpForceRtb => force_rtb E
  end.

Definition run_ops (E : Env) (ops : list Op) : M unit := for_each ops (run_op E).

(** A run of [validate_nonce] calls, with their answers. *)
Fixpoint validate_all (E : Env) (calls : list (Z * float)) : M (list (bool * string)) :=
  match calls with
  | [] => mret []
  | c :: cs => r ← validate_nonce E c; rs ← validate_all E cs; mret (r :: rs)
  end.

(** The approvals of a run of [add_approval]: each call takes three answers
    of the oracle (the clock, then the two of its log line), so the [i]-th
    officer is recorded at the answer [k + 3 i]. *)
Fixpoint approval_seq (E : Env) (k : nat) (officers : list string) : list (string * float) :=
  match officers with
  | [] => []
  | o :: os => (o, env_time E k) :: approval_seq E (3 + k) os
  end.

(** The time of the last approval of officer [o] in a sequence. *)
Fixpoint granted_at (seq : list (string * float)) (o : string) : option float :=
  match seq with
  | [] => None
  | (o', t) :: seq' =>
      match granted_at seq' o with
      | Some t' => Some t'
      | None => if String.eqb o' o then Some t else None
      end
  end.

(** The number of distinct officers whose recorded approval satisfies
    [now - granted_at <= ttl]. *)
Definition counts (now ttl : float) (seq : list (string * float)) (o : string) : Prop :=
  match granted_at seq o with
  | Some t => Binary64.le (Binary64.sub now t) ttl = true
  | None => False
  end.

#[export] Instance counts_dec now ttl seq o : Decision (counts now ttl seq o).
Proof. unfold counts. destruct (granted_at seq o); apply _. Defined.

Definition distinct_fresh (now ttl : float) (seq : list (string * float)) : nat :=
  length (filter (counts now ttl seq) (remove_dups (seq.*1))).

Definition required (e : SecurityEngine) (action : string) : Z :=
  if String.eqb action "engage" then required_engage e else required_kill e.

(* ===================================================================== *)
(** ** Fixtures of the worked examples *)
(* ===================================================================== *)

(** An oracle whose clock answers the integers of [times] in order (and 0
    after them), with a fixed wall-clock text and writes that succeed. *)
Definition clock (times : list Z) : Env :=
  {| env_time := fun k => Binary64.of_Z (nth k times 0);
     env_strftime := fun _ => "2024-01-01 00:00:00";
     env_random := fun _ => 0;
     env_write_ok := fun _ => true |}.

(** The decoder on text that is valid UTF-8. *)
Definition decode_valid (s : string) : string := s.

(** The program just loaded, with no log file on disk.  Loading takes the
    first answer of the clock (for [last_rotate]). *)
Definition boot (E : Env) : World := module_init E decode_valid None.

(** The nonce and timestamp [start_engagement_workflow] builds for its
    request: [(random.randint(1, 10**7), time.time())], read in this order. *)
Definition fresh_nonce (E : Env) (w : World) : Z * float :=
  (eval (random_randint E 1 (10 ^ 7)) w,
   eval (time_time E) (exec (random_randint E 1 (10 ^ 7)) w)).

(** What a kill action reads: the robots, the two armies and the selection. *)
Definition robot_view (w : World) :=
  (robots w, friendly_robots w, enemy_robots w, selected_robot w).

(** A world with one robot on each side, the enemy one selected. *)
Definition duel (w : World) : World :=
  {| SECURITY := SECURITY w; game_log := game_log w; failsafe_mode := failsafe_mode w;
     rtb_active := rtb_active w; kill_switch_armed := kill_switch_armed w;
     friendly_fire_authorized := friendly_fire_authorized w;
     robots := [ {| name := "FR-Bot-00"; team := "FRIENDLY"; alive := true; state := "IDLE" |};
                 {| name := "EN-Bot-00"; team := "ENEMY"; alive := true; state := "IDLE" |} ];
     friendly_robots := [0%nat]; enemy_robots := [1%nat]; selected_robot := Some 1%nat;
     blackbox_file := blackbox_file w; reads := reads w |}.

(** Officers A and B have approved, on the world [duel]. *)
Definition two_approvals (E : Env) : World :=
  exec (add_approval E "B") (exec (add_approval E "A") (duel (boot E))).

(** The approvals dictionary after a sequence of approvals, started from [m]. *)
Definition record_all (m : gmap string float) (seq : list (string * float)) : gmap string float :=
  foldl (fun m ot => <[ot.1 := ot.2]> m) m seq.

(** The world [w] with its anomaly score set to [s]. *)
Definition with_score (s : float) (w : World) : World :=
  set_SECURITY (set_anomaly_score s (SECURITY w)) w.


(* ===================================================================== *)
(** ** Well-formed floats *)
(* ===================================================================== *)

(** A Python float is a canonical binary64 value; the type [spec_float]
    also holds mantissa-exponent pairs that no float has. *)
Definition well_formed (s : float) : bool := valid_binary Binary64.prec Binary64.emax s.

(** A well-formed score within [0.0, 3.0]. *)
Definition score_ok (s : float) : bool := well_formed s && in_range s.

Definition score_in_range (w : World) : Prop := score_ok (anomaly_score (SECURITY w)) = true.

(** The second half of [binary_round_aux]: the mantissa after rounding is
    brought back into the format and packed. *)
Definition pack (sx : bool) (m2 e' : Z) : spec_float :=
  let '(mrs'', e'') := shr_fexp 53 1024 m2 e' loc_Exact in
  match shr_m mrs'' with
  | Z0 => S754_zero sx
  | Zpos m => if e'' <=? 1024 - 53 then S754_finite sx m e'' else S754_infinity sx
  | _ => S754_nan
  end.


(* ===================================================================== *)
(** ** Invariants and views *)
(* ===================================================================== *)

(** [m] keeps the property [P] of the world. *)
Definition preserves {A} (P : World -> Prop) (m : M A) : Prop :=
  forall w, P w -> P (exec m w).

(** The on-screen log holds at most 16 entries. *)
Definition log_bounded (w : World) : Prop := (length (game_log w) <= 16)%nat.

(** The configuration of the engine: the attributes [__init__] sets and no
    method assigns. *)
Definition engine_config (e : SecurityEngine) :=
  (approvals_ttl e, required_engage e, required_kill e, nonce_ttl e,
   key_rotate_interval e, rate_window e, max_cmds e, path (blackbox e)).

Definition config_is (c : float * Z * Z * float * float * float * Z * string) (w : World) : Prop :=
  engine_config (SECURITY w) = c.

(** The key epoch is exactly [k]. *)
Definition epoch_is (k : Z) (w : World) : Prop := key_epoch (SECURITY w) = k.

(** The key epoch is at least [k]. *)
Definition epoch_at_least (k : Z) (w : World) : Prop := k <= key_epoch (SECURITY w).

(** What the failsafe ladder reads and writes. *)
Definition failsafe_view (w : World) :=
  (anomaly_score (SECURITY w), failsafe_mode w, rtb_active w, friendly_fire_authorized w).

Definition failsafe_view_is (c : float * string * bool * bool) (w : World) : Prop :=
  failsafe_view w = c.

(** The log line of a change of mode. *)
Definition failsafe_entry (mode : string) : LogEntry :=
  if String.eqb mode "DEGRADE" then
    {| source := "FAILSAFE"; message := "System degrading capabilities (reduced fire rate).";
       color := ORANGE |}
  else if String.eqb mode "HOLD" then
    {| source := "FAILSAFE"; message := "Hold Fire engaged for all friendlies."; color := ORANGE |}
  else if String.eqb mode "RTB" then
    {| source := "FAILSAFE"; message := "Return-To-Base initiated for friendlies."; color := RED |}
  else
    {| source := "FAILSAFE"; message := "System recovered to normal ops."; color := GREEN |}.

(** The army [kill_selected_army] works on: the side of the selected robot,
    nothing when no robot is selected. *)
Definition selected_army (w : World) : list nat :=
  match selected_robot w ≫= (fun i => robots w !! i) with
  | Some r => if String.eqb (team r) "FRIENDLY" then friendly_robots w else enemy_robots w
  | None => []
  end.

(** Every robot of [w] is the robot of [rs0] at the same index, killed or
    not, and the armies and the selection are [v]. *)
Definition robots_from (rs0 : list Robot) (v : list nat * list nat * option nat)
    (w : World) : Prop :=
  (friendly_robots w, enemy_robots w, selected_robot w) = v /\
  forall i, robots w !! i = rs0 !! i \/ robots w !! i = Robot_kill <$> rs0 !! i.

(** [n] calls of [check_rate_limit] in a row, with their answers. *)
Fixpoint check_rate_limit_n (E : Env) (n : nat) : M (list bool) :=
  match n with
  | O => mret []
  | S n' => r ← check_rate_limit E; rs ← check_rate_limit_n E n'; mret (r :: rs)
  end.

(** The entry [t] of the rate window is out of the window at [now]. *)
Definition out_of_window (now window t : float) : Prop :=
  Binary64.gt (Binary64.sub now t) window = true.

(** The lines [append] writes for the payloads [ps] on top of the hash [h],
    and the hash it holds afterwards. *)
Fixpoint chain_text (h : string) (ps : list string) : string :=
  match ps with
  | [] => EmptyString
  | p :: ps' => entry_line (entry_hash h p) p +:+ chain_text (entry_hash h p) ps'
  end.

Fixpoint chain_end (h : string) (ps : list string) : string :=
  match ps with
  | [] => h
  | p :: ps' => chain_end (entry_hash h p) ps'
  end.

(** The content of the log file, a file that does not exist counting as
    empty (as it does for [open(path, "ab")]). *)
Definition file_text (w : World) : string := default EmptyString (blackbox_file w).

(** The log file is [f0] followed by a chain on top of [h0], and the engine
    holds the hash at the end of that chain. *)
Definition ledger_extends (f0 h0 : string) (w : World) : Prop :=
  exists ps, file_text w = f0 +:+ chain_text h0 ps /\
             prev_hash (blackbox (SECURITY w)) = chain_end h0 ps.



(* ===================================================================== *)
(** * Properties *)
(* ===================================================================== *)

(** ** Running the monad *)

Lemma exec_bind {A B} (m : M A) (k : A -> M B) (w : World) :
  exec (m ≫= k) w = exec (k (eval m w)) (exec m w).
Proof. unfold exec, eval, mbind, M_bind. destruct (m w); reflexivity. Qed.

Lemma eval_bind {A B} (m : M A) (k : A -> M B) (w : World) :
  eval (m ≫= k) w = eval (k (eval m w)) (exec m w).
Proof. unfold exec, eval, mbind, M_bind. destruct (m w); reflexivity. Qed.

Lemma run_pair {A} (m : M A) (w : World) : m w = (eval m w, exec m w).
Proof. unfold eval, exec. destruct (m w); reflexivity. Qed.

(** Unfold the monad and the reads of the oracle. *)
Ltac run_monad :=
  unfold time_time, time_strftime, io_ok, random_randint, next_read, gets, modify_SECURITY,
    modify, when, mbind, M_bind, mret, M_ret in *.

(** ** The nonce ledger *)

(** One call of [validate_nonce], written out: the clock is read once, a
    rejected call changes nothing else, an accepted call inserts and then
    cleans. *)
Lemma validate_nonce_run E w nonce ts :
  let e := SECURITY w in
  let now := env_time E (reads w) in
  let w1 := set_reads (S (reads w)) w in
  validate_nonce E (nonce, ts) w =
    if bool_decide (is_Some (ledger e !! nonce)) then (RejectedReplay, w1)
    else if Binary64.gt (Binary64.sub now ts) (nonce_ttl e) then (RejectedExpired, w1)
    else (Accepted,
          set_SECURITY (set_ledger (filter (nonce_live now (nonce_ttl e)) (<[nonce := ts]> (ledger e))) e) w1).
Proof.
  intros e now w1. unfold validate_nonce. run_monad. cbn.
  destruct (bool_decide _); [reflexivity|].
  destruct (Binary64.gt _ _); reflexivity.
Qed.

(** A rejected call leaves the ledger as it was; an accepted one keeps an
    older entry exactly when it is still within the time to live. *)
Lemma validate_all_cons E c cs w :
  eval (validate_all E (c :: cs)) w =
    eval (validate_nonce E c) w :: eval (validate_all E cs) (exec (validate_nonce E c) w).
Proof.
  cbn [validate_all]. rewrite eval_bind.
  rewrite eval_bind. reflexivity.
Qed.

Lemma exec_validate_all_cons E c cs w :
  exec (validate_all E (c :: cs)) w = exec (validate_all E cs) (exec (validate_nonce E c) w).
Proof.
  cbn [validate_all]. rewrite exec_bind.
  rewrite exec_bind. reflexivity.
Qed.

Lemma validate_nonce_reads E c w : reads (exec (validate_nonce E c) w) = S (reads w).
Proof.
  destruct c as [n ts]. unfold exec. rewrite validate_nonce_run.
  repeat case_match; reflexivity.
Qed.

Lemma validate_nonce_ttl E c w :
  nonce_ttl (SECURITY (exec (validate_nonce E c) w)) = nonce_ttl (SECURITY w).
Proof.
  destruct c as [n ts]. unfold exec. rewrite validate_nonce_run.
  repeat case_match; reflexivity.
Qed.

Lemma validate_nonce_keeps E c w n t :
  ledger (SECURITY w) !! n = Some t ->
  (eval (validate_nonce E c) w = Accepted /\
   Binary64.gt (Binary64.sub (env_time E (reads w)) t) (nonce_ttl (SECURITY w)) = true)
  \/ ledger (SECURITY (exec (validate_nonce E c) w)) !! n = Some t.
Proof.
  intros Hn. destruct c as [m ts]. unfold eval, exec. rewrite validate_nonce_run.
  case_bool_decide as Hm; [right; exact Hn|].
  destruct (Binary64.gt (Binary64.sub (env_time E (reads w)) ts) _) eqn:Hexp; [right; exact Hn|].
  cbn.
  destruct (Binary64.gt (Binary64.sub (env_time E (reads w)) t) (nonce_ttl (SECURITY w))) eqn:Hold.
  - left. done.
  - right. apply map_lookup_filter_Some. split; [|exact Hold].
    rewrite lookup_insert_ne; [exact Hn|]. intros ->. apply Hm. rewrite Hn. eauto.
Qed.

Lemma validate_all_app E cs c w :
  eval (validate_all E (cs ++ [c])) w !! length cs =
    Some (eval (validate_nonce E c) (exec (validate_all E cs) w)).
Proof.
  revert w. induction cs as [|c' cs IH]; intros w.
  - cbn [app length]. rewrite validate_all_cons. reflexivity.
  - cbn [app length]. rewrite validate_all_cons, exec_validate_all_cons. cbn. apply IH.
Qed.

Lemma validate_all_app_l E cs cs' w k :
  (k < length cs)%nat ->
  eval (validate_all E (cs ++ cs')) w !! k = eval (validate_all E cs) w !! k.
Proof.
  revert w k. induction cs as [|c cs IH]; intros w k Hk; [cbn in Hk; lia|].
  cbn [app]. rewrite !validate_all_cons. destruct k; [reflexivity|].
  cbn. apply IH. cbn in Hk. lia.
Qed.

Lemma validate_all_ttl E cs w :
  nonce_ttl (SECURITY (exec (validate_all E cs) w)) = nonce_ttl (SECURITY w).
Proof.
  revert w. induction cs as [|c cs IH]; intros w; [reflexivity|].
  rewrite exec_validate_all_cons, IH. apply validate_nonce_ttl.
Qed.

Lemma validate_all_keeps E cs w n t :
  ledger (SECURITY w) !! n = Some t ->
  (exists k, (k < length cs)%nat /\
     eval (validate_all E cs) w !! k = Some Accepted /\
     Binary64.gt (Binary64.sub (env_time E (reads w + k)) t) (nonce_ttl (SECURITY w)) = true)
  \/ ledger (SECURITY (exec (validate_all E cs) w)) !! n = Some t.
Proof.
  revert w. induction cs as [|c cs IH]; intros w Hn; [right; exact Hn|].
  destruct (validate_nonce_keeps E c w n t Hn) as [[Hacc Hexp]|Hkeep].
  - left. exists O. rewrite validate_all_cons, Nat.add_0_r. cbn. split; [lia|]. split; [by rewrite Hacc|done].
  - destruct (IH _ Hkeep) as [(k & Hk & Hacc & Hexp)|Hlast].
    + left. exists (S k). rewrite validate_all_cons. cbn. split; [lia|]. split; [exact Hacc|].
      rewrite validate_nonce_reads, validate_nonce_ttl in Hexp.
      replace (reads w + S k)%nat with (S (reads w) + k)%nat by lia. exact Hexp.
    + right. rewrite exec_validate_all_cons. exact Hlast.
Qed.

Lemma validate_nonce_accepted E n ts w :
  eval (validate_nonce E (n, ts)) w = Accepted ->
  ledger (SECURITY (exec (validate_nonce E (n, ts)) w)) !! n = Some ts.
Proof.
  unfold eval, exec. rewrite validate_nonce_run.
  case_bool_decide; [discriminate|].
  destruct (Binary64.gt _ _) eqn:Hexp; [discriminate|]. intros _. cbn.
  apply map_lookup_filter_Some. split; [apply lookup_insert_eq|exact Hexp].
Qed.

Lemma validate_nonce_present E n ts w :
  is_Some (ledger (SECURITY w) !! n) ->
  eval (validate_nonce E (n, ts)) w = RejectedReplay.
Proof.
  intros H. unfold eval. rewrite validate_nonce_run. rewrite bool_decide_eq_true_2; done.
Qed.

(** C2 (amended).  A nonce that was accepted can be accepted a second time
    only after a call in between was accepted at a moment when the first
    acceptance had already expired ([now - issued_at > nonce_ttl]): that call
    cleaned the entry out of the ledger.  Until then every call with the
    nonce is answered as a replay. *)
Theorem replay_only_after_expiry E w n ts ts' mid :
  let rs := eval (validate_all E ((n, ts) :: mid ++ [(n, ts')])) w in
  rs !! O = Some Accepted ->
  rs !! S (length mid) = Some Accepted ->
  exists k c,
    mid !! k = Some c /\ rs !! S k = Some Accepted /\
    Binary64.gt (Binary64.sub (env_time E (reads w + S k)) ts) (nonce_ttl (SECURITY w)) = true.
Proof.
  intros rs H0 Hlast. subst rs. rewrite validate_all_cons in *. cbn in H0, Hlast.
  injection H0 as H0.
  pose proof (validate_nonce_accepted _ _ _ _ H0) as Hin.
  destruct (validate_all_keeps E mid _ n ts Hin) as [(k & Hk & Hacc & Hexp)|Hkeep].
  - destruct (lookup_lt_is_Some_2 mid k Hk) as [c Hc]. exists k, c. cbn.
    split; [exact Hc|]. split.
    + rewrite validate_all_app_l by exact Hk. exact Hacc.
    + rewrite validate_nonce_reads, validate_nonce_ttl in Hexp.
      replace (reads w + S k)%nat with (S (reads w) + k)%nat by lia. exact Hexp.
  - rewrite validate_all_app in Hlast. injection Hlast as Hlast.
    rewrite validate_nonce_present in Hlast by (rewrite Hkeep; eauto). discriminate.
Qed.

(** The witness of C2: nonce 42 accepted at t=0, nonce 43 accepted at t=25,
    nonce 42 accepted again at t=25; the call in between is the one that
    found 42 expired. *)
Lemma replay_only_after_expiry_witness :
  let E := clock [0; 0; 25; 25] in
  exists k c,
    [(43, Binary64.of_Z 25)] !! k = Some c /\
    eval (validate_all E [(42, Binary64.of_Z 0); (43, Binary64.of_Z 25); (42, Binary64.of_Z 25)])
         (boot E) !! S k = Some Accepted /\
    Binary64.gt (Binary64.sub (env_time E (reads (boot E) + S k)) (Binary64.of_Z 0))
                (nonce_ttl (SECURITY (boot E))) = true.
Proof.
  intros E.
  apply (replay_only_after_expiry E (boot E) 42 (Binary64.of_Z 0) (Binary64.of_Z 25)
           [(43, Binary64.of_Z 25)]); vm_compute; reflexivity.
Defined.

(** C2 (as stated) fails: with the time to live of 20 s, nonce 42 is
    accepted at t=0; at t=25 the accepted nonce 43 cleans the expired entry
    of 42 away, and nonce 42, sent again with a timestamp of t=25, is
    accepted a second time. *)
Lemma nonce_accepted_twice :
  let E := clock [0; 0; 25; 25] in
  nonce_ttl (SECURITY (boot E)) = Binary64.f20_0 /\
  eval (validate_all E [(42, Binary64.of_Z 0); (43, Binary64.of_Z 25); (42, Binary64.of_Z 25)])
       (boot E) = [Accepted; Accepted; Accepted].
Proof. vm_compute. split; reflexivity. Qed.

(** C7.  [validate_nonce] tests in this order: a nonce that is in the ledger
    is a replay; otherwise a timestamp older than the time to live is
    expired; otherwise the nonce is inserted (and is in the ledger
    afterwards) and the call is accepted.  With the time to live of 20 s:
    nonce 42 at t=0 is accepted, the same nonce at t=5 is a replay, and
    nonce 43 issued at t=-25 is expired at t=0. *)
Theorem validate_nonce_checks :
  (forall E w nonce ts,
     let e := SECURITY w in
     let now := env_time E (reads w) in
     let w1 := set_reads (S (reads w)) w in
     validate_nonce E (nonce, ts) w =
       if bool_decide (is_Some (ledger e !! nonce)) then (RejectedReplay, w1)
       else if Binary64.gt (Binary64.sub now ts) (nonce_ttl e) then (RejectedExpired, w1)
       else (Accepted,
             set_SECURITY
               (set_ledger (filter (nonce_live now (nonce_ttl e)) (<[nonce := ts]> (ledger e))) e)
               w1)) /\
  (forall E w nonce ts,
     eval (validate_nonce E (nonce, ts)) w = Accepted ->
     ledger (SECURITY (exec (validate_nonce E (nonce, ts)) w)) !! nonce = Some ts) /\
  (let E := clock [0; 0; 5; 0] in
   let w0 := boot E in
   let w1 := exec (validate_nonce E (42, Binary64.of_Z 0)) w0 in
   let w2 := exec (validate_nonce E (42, Binary64.of_Z 0)) w1 in
   nonce_ttl (SECURITY w0) = Binary64.f20_0 /\
   env_time E (reads w0) = Binary64.of_Z 0 /\
   eval (validate_nonce E (42, Binary64.of_Z 0)) w0 = Accepted /\
   env_time E (reads w1) = Binary64.of_Z 5 /\
   eval (validate_nonce E (42, Binary64.of_Z 0)) w1 = RejectedReplay /\
   env_time E (reads w2) = Binary64.of_Z 0 /\
   eval (validate_nonce E (43, Binary64.of_Z (-25))) w2 = RejectedExpired).
Proof.
  split; [|split].
  - intros. apply validate_nonce_run.
  - intros. by apply validate_nonce_accepted.
  - vm_compute. repeat split; reflexivity.
Qed.

(** The witness of C7: nonce 42, accepted at t=0, is in the ledger with its
    timestamp afterwards. *)
Lemma validate_nonce_checks_witness :
  let E := clock [0; 0] in
  ledger (SECURITY (exec (validate_nonce E (42, Binary64.of_Z 0)) (boot E))) !! 42
    = Some (Binary64.of_Z 0).
Proof.
  intros E. apply (proj1 (proj2 validate_nonce_checks)). vm_compute. reflexivity.
Defined.

(** C9 (as stated) fails: after nonce 42 was accepted at t=0, a replay of it
    at t=25 and an expired nonce 43 at t=25 are both rejected, and both
    leave the entry of 42 in the ledger although it is older than the time
    to live by then. *)
Lemma rejected_call_does_not_prune :
  let E := clock [0; 0; 25] in
  let w1 := exec (validate_nonce E (42, Binary64.of_Z 0)) (boot E) in
  env_time E (reads w1) = Binary64.of_Z 25 /\
  Binary64.gt (Binary64.sub (Binary64.of_Z 25) (Binary64.of_Z 0)) (nonce_ttl (SECURITY w1)) = true /\
  eval (validate_nonce E (42, Binary64.of_Z 0)) w1 = RejectedReplay /\
  ledger (SECURITY (exec (validate_nonce E (42, Binary64.of_Z 0)) w1)) !! 42
    = Some (Binary64.of_Z 0) /\
  eval (validate_nonce E (43, Binary64.of_Z (-25))) w1 = RejectedExpired /\
  ledger (SECURITY (exec (validate_nonce E (43, Binary64.of_Z (-25))) w1)) !! 42
    = Some (Binary64.of_Z 0).
Proof. vm_compute. repeat split; reflexivity. Qed.

(** C9 (amended).  The ledger is cleaned only by a call that is accepted:
    after the insertion, every entry older than the time to live at the
    moment of the call is removed, so none is left; a call answered as a
    replay or as expired leaves the ledger exactly as it was. *)
Theorem prune_only_when_accepted E w nonce ts :
  let e := SECURITY w in
  let now := env_time E (reads w) in
  let r := eval (validate_nonce E (nonce, ts)) w in
  let e' := SECURITY (exec (validate_nonce E (nonce, ts)) w) in
  (r = Accepted \/ r = RejectedReplay \/ r = RejectedExpired) /\
  (r = Accepted ->
     ledger e' = filter (nonce_live now (nonce_ttl e)) (<[nonce := ts]> (ledger e)) /\
     forall n t, ledger e' !! n = Some t ->
                 Binary64.gt (Binary64.sub now t) (nonce_ttl e) = false) /\
  (r = RejectedReplay \/ r = RejectedExpired -> ledger e' = ledger e).
Proof.
  intros e now r e'. subst r e'. unfold eval, exec. rewrite validate_nonce_run. fold e now.
  case_bool_decide; [|destruct (Binary64.gt _ _)]; cbn.
  - split; [auto|]. split; [discriminate|reflexivity].
  - split; [auto|]. split; [discriminate|reflexivity].
  - split; [auto|]. split.
    + intros _. split; [reflexivity|]. intros n t Hn.
      apply map_lookup_filter_Some in Hn as [_ Hlive]. exact Hlive.
    + intros [?|?]; discriminate.
Qed.

(** The witness of C9: the accepted nonce 43 at t=25 leaves no entry older
    than the time to live (the entry of 42, from t=0, is gone). *)
Lemma prune_only_when_accepted_witness :
  let E := clock [0; 0; 25] in
  let w1 := exec (validate_nonce E (42, Binary64.of_Z 0)) (boot E) in
  ledger (SECURITY (exec (validate_nonce E (43, Binary64.of_Z 25)) w1))
    = filter (nonce_live (env_time E (reads w1)) (nonce_ttl (SECURITY w1)))
        (<[43 := Binary64.of_Z 25]> (ledger (SECURITY w1))) /\
  forall n t,
    ledger (SECURITY (exec (validate_nonce E (43, Binary64.of_Z 25)) w1)) !! n = Some t ->
    Binary64.gt (Binary64.sub (env_time E (reads w1)) t) (nonce_ttl (SECURITY w1)) = false.
Proof.
  intros E w1.
  apply (proj1 (proj2 (prune_only_when_accepted E w1 43 (Binary64.of_Z 25)))).
  vm_compute. reflexivity.
Defined.

(** ** The log *)

Lemma log_event_core E src msg col w :
  world_core (exec (log_event E src msg col) w) = world_core w.
Proof.
  unfold log_event, BlackBoxLedger_append, exec. run_monad. cbn.
  destruct (16 <? _); cbn; destruct (env_write_ok E _); reflexivity.
Qed.

Lemma log_event_reads E src msg col w :
  reads (exec (log_event E src msg col) w) = S (S (reads w)).
Proof.
  unfold log_event, BlackBoxLedger_append, exec. run_monad. cbn.
  destruct (16 <? _); cbn; destruct (env_write_ok E _); reflexivity.
Qed.

Lemma log_event_last E src msg col w :
  last (game_log (exec (log_event E src msg col) w))
    = Some {| source := src; message := msg; color := col |}.
Proof.
  unfold log_event, BlackBoxLedger_append, exec. run_monad. cbn.
  destruct (16 <? _) eqn:Hlen; cbn; destruct (env_write_ok E _); cbn.
  3,4: apply last_snoc.
  all: destruct (game_log w) as [|x l]; cbn in *; try discriminate; apply last_snoc.
Qed.

(** Fields out of an equation between cores. *)
Ltac fields :=
  cbn [SECURITY game_log failsafe_mode rtb_active kill_switch_armed friendly_fire_authorized
       robots friendly_robots enemy_robots selected_robot blackbox_file reads
       approvals approvals_ttl required_engage required_kill ledger nonce_ttl key_epoch
       key_rotate_interval last_rotate cmd_times rate_window max_cmds blackbox anomaly_score
       set_SECURITY set_game_log set_failsafe_mode set_rtb_active set_kill_switch_armed
       set_friendly_fire_authorized set_robots set_blackbox_file set_reads
       set_approvals set_ledger set_key_epoch set_last_rotate set_cmd_times set_blackbox
       set_anomaly_score] in *.
Ltac core_fields H :=
  unfold world_core, engine_core in H; injection H as ?; fields.

Lemma eval_gets {A} (f : World -> A) w : eval (gets f) w = f w.
Proof. reflexivity. Qed.

Lemma exec_gets {A} (f : World -> A) w : exec (gets f) w = w.
Proof. reflexivity. Qed.

Lemma approvals_ok_run E action w :
  let e := SECURITY w in
  let now := env_time E (reads w) in
  let kept := filter (approval_fresh now (approvals_ttl e)) (approvals e) in
  approvals_ok E action w =
    (required e action <=? Z.of_nat (size kept),
     set_SECURITY (set_approvals kept e) (set_reads (S (reads w)) w)).
Proof. intros. unfold approvals_ok, clear_old_approvals. run_monad. reflexivity. Qed.

Lemma check_rate_limit_run E w :
  let e := SECURITY w in
  let now := env_time E (reads w) in
  let q := evict now (rate_window e) (cmd_times e ++ [now]) in
  check_rate_limit E w =
    (Z.of_nat (length q) <=? max_cmds e,
     set_SECURITY (set_cmd_times q e) (set_reads (S (reads w)) w)).
Proof. intros. unfold check_rate_limit. run_monad. reflexivity. Qed.

Lemma incident_core E kind w :
  world_core (exec (incident E kind) w)
    = world_core (set_SECURITY (set_anomaly_score (raised kind (anomaly_score (SECURITY w)))
                                  (SECURITY w)) w).
Proof.
  unfold incident. rewrite exec_bind, exec_bind, log_event_core. reflexivity.
Qed.

Lemma incident_reads E kind w : reads (exec (incident E kind) w) = S (S (reads w)).
Proof. unfold incident. rewrite exec_bind, exec_bind, log_event_reads. reflexivity. Qed.

Lemma incident_score E kind w :
  anomaly_score (SECURITY (exec (incident E kind) w)) = raised kind (anomaly_score (SECURITY w)).
Proof. pose proof (incident_core E kind w) as H. core_fields H. congruence. Qed.


(** ** The engagement workflow *)

Lemma eval_ret {A} (a : A) w : eval (mret a) w = a.
Proof. reflexivity. Qed.

Lemma exec_ret {A} (a : A) w : exec (mret a) w = w.
Proof. reflexivity. Qed.

Lemma engine_core_fields e e' :
  engine_core e = engine_core e' ->
  anomaly_score e = anomaly_score e' /\ cmd_times e = cmd_times e' /\ ledger e = ledger e'.
Proof. unfold engine_core. intros H. injection H as ?. auto. Qed.

Lemma log_event_engine E src msg col u :
  engine_core (SECURITY (exec (log_event E src msg col) u)) = engine_core (SECURITY u).
Proof.
  pose proof (log_event_core E src msg col u) as H.
  unfold world_core in H. injection H as ?. unfold engine_core. congruence.
Qed.

Lemma incident_engine E kind u :
  engine_core (SECURITY (exec (incident E kind) u))
  = engine_core (set_anomaly_score (raised kind (anomaly_score (SECURITY u))) (SECURITY u)).
Proof.
  unfold incident. rewrite exec_bind, exec_bind, log_event_engine. reflexivity.
Qed.


(** The workflow, gate by gate: each gate runs on the world the one before
    it left, and the first that fails ends the request. *)
Lemma engagement_run E w :
  let e := SECURITY w in
  let q := eval (approvals_ok E "engage") w in
  let w1 := exec (approvals_ok E "engage") w in
  let r := eval (check_rate_limit E) w1 in
  let w2 := exec (check_rate_limit E) w1 in
  let w3 := exec (time_time E) (exec (random_randint E 1 (10 ^ 7)) w2) in
  let v := eval (validate_nonce E (fresh_nonce E w2)) w3 in
  let w4 := exec (validate_nonce E (fresh_nonce E w2)) w3 in
  let res := eval (start_engagement_workflow E) w in
  let w' := exec (start_engagement_workflow E) w in
  let e' := SECURITY w' in
  if negb q then
    res = false /\
    w' = exec (log_event E "HUMAN" "Engagement request pending: Need 2-of-3 approvals (Q/W/E)." YELLOW) w1 /\
    anomaly_score e' = anomaly_score e /\ cmd_times e' = cmd_times e /\ ledger e' = ledger e
  else if negb r then
    res = false /\
    w' = exec (log_event E "IDS" "Command rate-limit exceeded. Engagement blocked." ORANGE)
           (exec (incident E "rate_limit") w2) /\
    anomaly_score e' = raised "rate_limit" (anomaly_score e) /\ ledger e' = ledger e
  else if negb v.1 then
    res = false /\
    w' = exec (log_event E "SECURE" ("Command nonce rejected: " +:+ v.2 +:+ ".") ORANGE)
           (exec (incident E "replay_fail") w4) /\
    anomaly_score e' = raised "replay_fail" (anomaly_score e)
  else
    res = true /\
    w' = exec (log_event E "SECURE" "Signed control frame verified. Engagement authorized." GREEN) w4 /\
    anomaly_score e' = anomaly_score e.
Proof.
  intros e q w1 r w2 w3 v w4 res w' e'.
  assert (H1 : anomaly_score (SECURITY w1) = anomaly_score e /\
               cmd_times (SECURITY w1) = cmd_times e /\ ledger (SECURITY w1) = ledger e)
    by (repeat split; reflexivity).
  assert (H2 : anomaly_score (SECURITY w2) = anomaly_score (SECURITY w1) /\
               ledger (SECURITY w2) = ledger (SECURITY w1))
    by (repeat split; reflexivity).
  assert (H4 : anomaly_score (SECURITY w4) = anomaly_score (SECURITY w2)).
  { subst v w4. destruct (fresh_nonce E w2) as [n ts]. unfold exec.
    rewrite validate_nonce_run. repeat case_match; reflexivity. }
  destruct H1 as (H1s & H1c & H1l). destruct H2 as (H2s & H2l).
  subst res w' e'. unfold start_engagement_workflow.
  rewrite eval_bind, exec_bind. fold q w1.
  destruct q; cbn [negb].
  2: { rewrite eval_bind, exec_bind, eval_ret, exec_ret.
       split; [reflexivity|]. split; [reflexivity|].
       destruct (engine_core_fields _ _ (log_event_engine E "HUMAN"
         "Engagement request pending: Need 2-of-3 approvals (Q/W/E)." YELLOW w1)) as (Hs & Hc & Hl).
       rewrite Hs, Hc, Hl. auto. }
  rewrite eval_bind, exec_bind. fold r w2.
  destruct r; cbn [negb].
  2: { rewrite !eval_bind, !exec_bind, eval_ret, exec_ret.
       split; [reflexivity|]. split; [reflexivity|].
       destruct (engine_core_fields _ _ (log_event_engine E "IDS"
         "Command rate-limit exceeded. Engagement blocked." ORANGE
         (exec (incident E "rate_limit") w2))) as (Hs & _ & Hl).
       destruct (engine_core_fields _ _ (incident_engine E "rate_limit" w2)) as (Hs' & _ & Hl').
       rewrite Hs, Hl, Hs', Hl'. cbn [anomaly_score ledger set_anomaly_score].
       rewrite H2s, H1s, H2l, H1l. auto. }
  rewrite eval_bind, exec_bind. rewrite eval_bind, exec_bind. rewrite eval_bind, exec_bind.
  change (eval (random_randint E 1 (10 ^ 7)) w2,
          eval (time_time E) (exec (random_randint E 1 (10 ^ 7)) w2))
    with (fresh_nonce E w2).
  fold w3. fold v w4.
  destruct (v.1) eqn:Hv; cbn [negb].
  - rewrite eval_bind, exec_bind, eval_ret, exec_ret.
    split; [reflexivity|]. split; [reflexivity|].
    destruct (engine_core_fields _ _ (log_event_engine E "SECURE"
      "Signed control frame verified. Engagement authorized." GREEN w4)) as (Hs & _ & _).
    rewrite Hs, H4, H2s, H1s. reflexivity.
  - rewrite !eval_bind, !exec_bind, eval_ret, exec_ret.
    split; [reflexivity|]. split; [reflexivity|].
    destruct (engine_core_fields _ _ (log_event_engine E "SECURE"
      ("Command nonce rejected: " +:+ v.2 +:+ ".") ORANGE
      (exec (incident E "replay_fail") w4))) as (Hs & _ & _).
    destruct (engine_core_fields _ _ (incident_engine E "replay_fail" w4)) as (Hs' & _ & _).
    rewrite Hs, Hs'. cbn [anomaly_score set_anomaly_score].
    rewrite H4, H2s, H1s. reflexivity.
Qed.

(** ** The kill actions *)

(** The robots after [for r in ids: r.kill()]. *)
Lemma kill_each_run ids w :
  exec (for_each ids kill_at) w
    = set_robots (foldl (fun rs i => alter Robot_kill i rs) (robots w) ids) w.
Proof.
  revert w. induction ids as [|i ids IH]; intros w.
  - destruct w; reflexivity.
  - cbn [for_each foldl]. rewrite exec_bind, IH. reflexivity.
Qed.

(** What the robots are after a kill action depends on [robot_view] only. *)
Lemma dispatch_kill_view E kind w w' :
  robot_view w = robot_view w' ->
  robots (exec (dispatch_kill E kind) w) = robots (exec (dispatch_kill E kind) w').
Proof.
  unfold robot_view. intros Hv. simplify_eq.
  assert (Hlog : forall src msg col u, robots (exec (log_event E src msg col) u) = robots u).
  { intros. pose proof (log_event_core E src msg col u) as Hc. core_fields Hc. congruence. }
  unfold dispatch_kill.
  destruct (String.eqb kind "unit"); [|destruct (String.eqb kind "army")].
  - unfold kill_selected_robot, selected. rewrite !exec_bind.
    rewrite !eval_gets, !exec_gets, <- H0, <- H.
    destruct (selected_robot w) as [i|]; cbn; [|by rewrite !Hlog].
    destruct (robots w !! i) as [r|] eqn:Hr; cbn; [|by rewrite !Hlog].
    destruct (alive r); [|by rewrite !Hlog].
    rewrite !exec_bind, !Hlog. cbn. by rewrite H.
  - unfold kill_selected_army, selected. rewrite !exec_bind.
    rewrite !eval_gets, !exec_gets, <- H0, <- H.
    destruct (selected_robot w) as [i|]; cbn; [|by rewrite !Hlog].
    destruct (robots w !! i) as [r|] eqn:Hr; cbn; [|by rewrite !Hlog].
    rewrite !exec_bind, !Hlog, !kill_each_run, !eval_gets, !exec_gets. cbn.
    destruct (String.eqb (team r) "FRIENDLY"); cbn; congruence.
  - unfold kill_all_robots.
    rewrite !exec_bind, !Hlog, !kill_each_run, !eval_gets, !exec_gets. cbn. congruence.
Qed.

Lemma world_core_view w w' :
  world_core w = world_core w' ->
  robot_view w = robot_view w' /\ kill_switch_armed w = kill_switch_armed w'.
Proof. unfold world_core, robot_view. intros H. injection H as ?. split; congruence. Qed.

Lemma Robot_kill_dead r :
  alive (Robot_kill r) = false /\ name (Robot_kill r) = name r /\ team (Robot_kill r) = team r /\
  Robot_kill (Robot_kill r) = Robot_kill r /\ (alive r = false -> Robot_kill r = r).
Proof.
  unfold Robot_kill. destruct r as [n t [] s]; cbn; repeat split; try reflexivity.
  discriminate.
Qed.

Lemma kill_list_lookup ids (rs : list Robot) i :
  foldl (fun rs i => alter Robot_kill i rs) rs ids !! i
    = (if decide (i ∈ ids) then Robot_kill else id) <$> rs !! i.
Proof.
  revert rs. induction ids as [|j ids IH]; intros rs.
  - cbn. rewrite decide_False by apply not_elem_of_nil. by destruct (rs !! i).
  - cbn [foldl]. rewrite IH. destruct (decide (i = j)) as [->|Hne].
    + rewrite list_lookup_alter_eq. rewrite (decide_True _ _ (list_elem_of_here j ids)).
      destruct (rs !! j) as [r|]; cbn; [|by destruct (decide _)].
      destruct (decide (j ∈ ids)); cbn; [|reflexivity].
      f_equal. apply (Robot_kill_dead r).
    + rewrite list_lookup_alter_ne by congruence.
      destruct (decide (i ∈ ids)) as [Hin|Hnin].
      * rewrite decide_True by (by right). reflexivity.
      * rewrite decide_False; [reflexivity|]. rewrite elem_of_cons. tauto.
Qed.

Lemma log_event_robots E src msg col w :
  robots (exec (log_event E src msg col) w) = robots w.
Proof.
  pose proof (log_event_core E src msg col w) as H.
  unfold world_core in H. injection H as ?. congruence.
Qed.

(** What each kill action leaves of the robots. *)
Lemma kill_selected_robot_robots E w :
  robots (exec (kill_selected_robot E) w)
    = match selected_robot w with
      | Some s => alter Robot_kill s (robots w)
      | None => robots w
      end.
Proof.
  unfold kill_selected_robot, selected. rewrite exec_bind, eval_gets, exec_gets.
  destruct (selected_robot w) as [s|]; cbn [mbind option_bind]; [|apply log_event_robots].
  destruct (robots w !! s) as [r|] eqn:Hr; cbn [mbind option_bind].
  - destruct (alive r) eqn:Ha.
    + rewrite exec_bind, log_event_robots. reflexivity.
    + rewrite log_event_robots. symmetry. apply list_eq. intros i.
      destruct (decide (i = s)) as [->|Hne].
      * rewrite list_lookup_alter_eq, Hr. cbn. f_equal. by apply (Robot_kill_dead r).
      * by rewrite list_lookup_alter_ne.
  - rewrite log_event_robots. symmetry. apply list_eq. intros i.
    destruct (decide (i = s)) as [->|Hne].
    + by rewrite list_lookup_alter_eq, Hr.
    + by rewrite list_lookup_alter_ne.
Qed.

Lemma kill_selected_army_robots E w i :
  robots (exec (kill_selected_army E) w) !! i
    = (if decide (i ∈ selected_army w) then Robot_kill else id) <$> robots w !! i.
Proof.
  unfold kill_selected_army, selected, selected_army.
  rewrite exec_bind, eval_gets, exec_gets.
  destruct (selected_robot w) as [s|]; cbn [mbind option_bind].
  2: { rewrite log_event_robots, decide_False by apply not_elem_of_nil.
       by destruct (robots w !! i). }
  destruct (robots w !! s) as [r|] eqn:Hr; cbn [mbind option_bind].
  2: { rewrite log_event_robots, decide_False by apply not_elem_of_nil.
       by destruct (robots w !! i). }
  rewrite !exec_bind, log_event_robots, kill_each_run, eval_gets, exec_gets.
  cbn [robots set_robots]. rewrite kill_list_lookup.
  destruct (String.eqb (team r) "FRIENDLY"); reflexivity.
Qed.

Lemma kill_all_robots_robots E w i :
  robots (exec (kill_all_robots E) w) !! i
    = (if decide (i ∈ friendly_robots w ++ enemy_robots w) then Robot_kill else id)
        <$> robots w !! i.
Proof.
  unfold kill_all_robots.
  rewrite !exec_bind, log_event_robots, kill_each_run, eval_gets, exec_gets.
  cbn [robots set_robots]. apply kill_list_lookup.
Qed.

(** ** The kill switch *)

Lemma execute_not_armed E kind w :
  kill_switch_armed w = false ->
  execute_kill_switch E kind w =
    (DeniedNotArmed, exec (log_event E "KILL-SW" "Kill-switch not armed. Press J to request." GREY) w).
Proof.
  intros Ha. rewrite run_pair. unfold execute_kill_switch.
  rewrite eval_bind, exec_bind, eval_gets, exec_gets, Ha. cbn [negb].
  rewrite eval_bind, exec_bind. reflexivity.
Qed.

Lemma arm_run E w :
  kill_switch_armed (exec (arm_kill_switch E) w) = true /\
  world_core (exec (arm_kill_switch E) w) = world_core (set_kill_switch_armed true w).
Proof.
  unfold arm_kill_switch. rewrite exec_bind.
  pose proof (log_event_core E "KILL-SW"
    "Kill-switch request armed. Need 2-of-3 approvals (Q/W/E) then press K/L/U." YELLOW
    (exec (modify (set_kill_switch_armed true)) w)) as H.
  split; [|exact H]. core_fields H. congruence.
Qed.

(** One call of [execute_kill_switch], exit by exit. *)
Lemma execute_kill_switch_run E w kind :
  let q := eval (approvals_ok E "kill") w in
  let w1 := exec (approvals_ok E "kill") w in
  let w2 :=
    exec (log_event E "KILL-SW" "PATH-2: OOB network path + KMS epoch keys validated." CYAN)
      (exec (log_event E "KILL-SW" "PATH-1: RoT attestation OK → Signed control frame accepted." CYAN)
         w1) in
  let res := eval (execute_kill_switch E kind) w in
  let w' := exec (execute_kill_switch E kind) w in
  kill_switch_armed (exec (arm_kill_switch E) w) = true /\
  if negb (kill_switch_armed w) then
    res = DeniedNotArmed /\ kill_switch_armed w' = false /\ world_core w' = world_core w
  else if negb q then
    res = DeniedQuorum /\ kill_switch_armed w' = true /\ robots w' = robots w
  else
    res = Executed /\ kill_switch_armed w' = false /\
    w' = set_kill_switch_armed false (exec (dispatch_kill E kind) w2) /\
    robots w' = robots (exec (dispatch_kill E kind) w) /\
    forall kind', eval (execute_kill_switch E kind') w' = DeniedNotArmed.
Proof.
  intros q w1 w2 res w'. split; [apply arm_run|].
  assert (Hnext : forall u kind', kill_switch_armed u = false ->
                    eval (execute_kill_switch E kind') u = DeniedNotArmed).
  { intros u kind' Hu. unfold eval. rewrite execute_not_armed by exact Hu. reflexivity. }
  destruct (kill_switch_armed w) eqn:Ha; cbn [negb].
  2: { subst res w'. unfold eval, exec. rewrite execute_not_armed by exact Ha. cbn [fst snd].
       pose proof (log_event_core E "KILL-SW" "Kill-switch not armed. Press J to request." GREY w) as H.
       split; [reflexivity|]. split; [|exact H]. core_fields H. congruence. }
  assert (Hv1 : robot_view w1 = robot_view w) by reflexivity.
  assert (Ha1 : kill_switch_armed w1 = kill_switch_armed w) by reflexivity.
  subst res w'. unfold execute_kill_switch.
  rewrite eval_bind, exec_bind, eval_gets, exec_gets, Ha. cbn [negb].
  rewrite eval_bind, exec_bind. fold q w1.
  destruct q; cbn [negb].
  - rewrite !eval_bind, !exec_bind. fold w2. cbn [eval exec mret M_ret fst snd modify].
    split; [reflexivity|]. split; [reflexivity|]. split; [reflexivity|]. split.
    + cbn [robots set_kill_switch_armed]. apply dispatch_kill_view.
      assert (H2 : world_core w2 = world_core w1)
        by (subst w2; rewrite !log_event_core; reflexivity).
      destruct (world_core_view _ _ H2) as [Hv2 _]. rewrite Hv2. exact Hv1.
    + intros kind'. apply Hnext. reflexivity.
  - rewrite eval_bind, exec_bind.
    pose proof (log_event_core E "KILL-SW" "Approvals insufficient (need 2-of-3)." ORANGE w1) as H.
    cbn [eval exec mret M_ret fst snd].
    split; [reflexivity|]. core_fields H. unfold robot_view in Hv1. split; congruence.
Qed.

(** ** The claims on the kill switch and on the engagement workflow *)

(** C1.  The kill switch is two-phase and single-use.
    - [arm_kill_switch] sets the latch.
    - Not armed: [execute_kill_switch] takes the not-armed exit, the latch
      stays false and no robot is touched.
    - Armed, kill quorum not met: it takes the quorum exit, the latch stays
      true and no robot is touched.
    - Armed (in particular after [arm_kill_switch]), kill quorum met: it
      takes the executed exit, the robots are those the scope leaves (unit:
      the selected robot is killed; army: the robots of the army of the
      selected robot are killed; any other scope: the robots of both armies
      are killed; no other robot is touched), and the latch is reset, so
      that the next call takes the not-armed exit and leaves the latch
      false, whatever the approvals are.
    So a call that fails a precondition leaves the latch as it was, and
    only an armed call with the quorum met executes.  In the worked
    examples the enemy robot is selected: with no approval the armed call is
    denied for the quorum and both robots stay alive; once officers A and B
    have approved, each scope kills its robots, and the quorum is still met
    when the second call is denied. *)
Theorem kill_switch_two_phase :
  (forall E w, kill_switch_armed (exec (arm_kill_switch E) w) = true) /\
  (forall E w kind,
     let w' := exec (execute_kill_switch E kind) w in
     kill_switch_armed w = false ->
     eval (execute_kill_switch E kind) w = DeniedNotArmed /\
     kill_switch_armed w' = false /\
     robots w' = robots w) /\
  (forall E w kind,
     let w' := exec (execute_kill_switch E kind) w in
     kill_switch_armed w = true ->
     eval (approvals_ok E "kill") w = false ->
     eval (execute_kill_switch E kind) w = DeniedQuorum /\
     kill_switch_armed w' = true /\
     robots w' = robots w) /\
  (forall E w kind,
     let w' := exec (execute_kill_switch E kind) w in
     kill_switch_armed w = true ->
     eval (approvals_ok E "kill") w = true ->
     eval (execute_kill_switch E kind) w = Executed /\
     kill_switch_armed w' = false /\
     (kind = "unit" ->
      robots w' = match selected_robot w with
                  | Some s => alter Robot_kill s (robots w)
                  | None => robots w
                  end) /\
     (kind = "army" ->
      forall i, robots w' !! i
                = (if decide (i ∈ selected_army w) then Robot_kill else id) <$> robots w !! i) /\
     (kind <> "unit" -> kind <> "army" ->
      forall i, robots w' !! i
                = (if decide (i ∈ friendly_robots w ++ enemy_robots w) then Robot_kill else id)
                    <$> robots w !! i) /\
     (forall kind',
        eval (execute_kill_switch E kind') w' = DeniedNotArmed /\
        kill_switch_armed (exec (execute_kill_switch E kind') w') = false)) /\
  (forall E w kind,
     let wa := exec (arm_kill_switch E) w in
     let w' := exec (execute_kill_switch E kind) wa in
     eval (approvals_ok E "kill") wa = true ->
     eval (execute_kill_switch E kind) wa = Executed /\
     kill_switch_armed w' = false /\
     forall kind', eval (execute_kill_switch E kind') w' = DeniedNotArmed) /\
  (let E := clock [] in
   let w0 := exec (arm_kill_switch E) (duel (boot E)) in
   let w := two_approvals E in
   let wa := exec (arm_kill_switch E) w in
   let w' := exec (execute_kill_switch E "unit") wa in
   eval (approvals_ok E "kill") w0 = false /\
   eval (execute_kill_switch E "fleet") w0 = DeniedQuorum /\
   kill_switch_armed (exec (execute_kill_switch E "fleet") w0) = true /\
   alive <$> robots (exec (execute_kill_switch E "fleet") w0) = [true; true] /\
   eval (execute_kill_switch E "unit") w = DeniedNotArmed /\
   kill_switch_armed (exec (execute_kill_switch E "unit") w) = false /\
   alive <$> robots (exec (execute_kill_switch E "unit") w) = [true; true] /\
   eval (approvals_ok E "kill") wa = true /\
   eval (execute_kill_switch E "unit") wa = Executed /\
   alive <$> robots w' = [true; false] /\
   kill_switch_armed w' = false /\
   eval (approvals_ok E "kill") w' = true /\
   eval (execute_kill_switch E "unit") w' = DeniedNotArmed /\
   alive <$> robots (exec (execute_kill_switch E "army") wa) = [true; false] /\
   alive <$> robots (exec (execute_kill_switch E "fleet") wa) = [false; false]).
Proof.
  split; [|split; [|split; [|split; [|split]]]].
  - intros E w. apply arm_run.
  - intros E w kind w' Ha.
    pose proof (execute_kill_switch_run E w kind) as [_ H]. cbv zeta in H.
    rewrite Ha in H. cbn [negb] in H. destruct H as (H1 & H2 & H3).
    split; [exact H1|]. split; [exact H2|].
    destruct (world_core_view _ _ H3) as [Hv _]. unfold robot_view in Hv.
    injection Hv as Hr _ _ _. exact Hr.
  - intros E w kind w' Ha Hq.
    pose proof (execute_kill_switch_run E w kind) as [_ H]. cbv zeta in H.
    rewrite Ha, Hq in H. cbn [negb] in H. exact H.
  - intros E w kind w' Ha Hq.
    pose proof (execute_kill_switch_run E w kind) as [_ H]. cbv zeta in H.
    rewrite Ha, Hq in H. cbn [negb] in H. destruct H as (H1 & H2 & _ & H4 & H5).
    fold w' in H2, H4, H5.
    split; [exact H1|]. split; [exact H2|]. split; [|split; [|split]].
    + intros ->. rewrite H4. apply kill_selected_robot_robots.
    + intros -> i. rewrite H4. apply kill_selected_army_robots.
    + intros Hu Hm i. rewrite H4. unfold dispatch_kill.
      rewrite (proj2 (String.eqb_neq kind "unit") Hu), (proj2 (String.eqb_neq kind "army") Hm).
      apply kill_all_robots_robots.
    + intros kind'. split; [apply H5|].
      pose proof (execute_kill_switch_run E w' kind') as [_ H]. cbv zeta in H.
      rewrite H2 in H. cbn [negb] in H. apply H.
  - intros E w kind wa w' Hq.
    pose proof (execute_kill_switch_run E wa kind) as [_ H]. cbv zeta in H.
    destruct (arm_run E w) as [Ha _]. fold wa in Ha.
    rewrite Ha, Hq in H. cbn [negb] in H. destruct H as (H1 & H2 & _ & _ & H5). auto.
  - vm_compute. repeat split; reflexivity.
Qed.

(** The witness of C1, on the worked examples.  Armed with no approval, the
    fleet scope is denied for the quorum and kills nobody; armed once A and
    B have approved, the unit scope executes, kills the selected robot,
    resets the latch, and the next call is denied. *)
Lemma kill_switch_two_phase_witness :
  let E := clock [] in
  let w0 := exec (arm_kill_switch E) (duel (boot E)) in
  let wa := exec (arm_kill_switch E) (two_approvals E) in
  let w' := exec (execute_kill_switch E "unit") wa in
  (eval (execute_kill_switch E "fleet") w0 = DeniedQuorum /\
   kill_switch_armed (exec (execute_kill_switch E "fleet") w0) = true /\
   robots (exec (execute_kill_switch E "fleet") w0) = robots w0) /\
  eval (execute_kill_switch E "unit") wa = Executed /\
  kill_switch_armed w' = false /\
  robots w' = alter Robot_kill 1%nat (robots wa) /\
  forall kind',
    eval (execute_kill_switch E kind') w' = DeniedNotArmed /\
    kill_switch_armed (exec (execute_kill_switch E kind') w') = false.
Proof.
  intros E w0 wa w'.
  pose proof (proj1 (proj2 (proj2 kill_switch_two_phase)) E w0 "fleet") as Hq.
  pose proof (proj1 (proj2 (proj2 (proj2 kill_switch_two_phase))) E wa "unit") as Hx.
  cbv zeta in Hq, Hx.
  split; [apply Hq; vm_compute; reflexivity|].
  destruct Hx as (H1 & H2 & H3 & _ & _ & H6); [vm_compute; reflexivity..|].
  split; [exact H1|]. split; [exact H2|]. split; [exact (H3 eq_refl)|exact H6].
Defined.

(** C3.  [start_engagement_workflow] runs the quorum gate, then the rate
    limit, then the nonce validation (on a nonce drawn from 1..10^7 and the
    clock), each on the world the gate before left, and stops at the first
    that fails.  A failed quorum only logs the pending request: the score,
    the rate window and the nonce ledger are as before.  A failed rate limit
    raises the incident [rate_limit] and leaves the nonce ledger as before.
    A failed nonce validation raises an incident.  A granted request leaves
    the score as it was. *)
Theorem engagement_gates E w :
  let e := SECURITY w in
  let q := eval (approvals_ok E "engage") w in
  let w1 := exec (approvals_ok E "engage") w in
  let r := eval (check_rate_limit E) w1 in
  let w2 := exec (check_rate_limit E) w1 in
  let w3 := exec (time_time E) (exec (random_randint E 1 (10 ^ 7)) w2) in
  let v := eval (validate_nonce E (fresh_nonce E w2)) w3 in
  let w4 := exec (validate_nonce E (fresh_nonce E w2)) w3 in
  let res := eval (start_engagement_workflow E) w in
  let w' := exec (start_engagement_workflow E) w in
  let e' := SECURITY w' in
  1 <= (fresh_nonce E w2).1 <= 10 ^ 7 /\
  if negb q then
    res = false /\
    w' = exec (log_event E "HUMAN" "Engagement request pending: Need 2-of-3 approvals (Q/W/E)." YELLOW) w1 /\
    anomaly_score e' = anomaly_score e /\ cmd_times e' = cmd_times e /\ ledger e' = ledger e
  else if negb r then
    res = false /\
    w' = exec (log_event E "IDS" "Command rate-limit exceeded. Engagement blocked." ORANGE)
           (exec (incident E "rate_limit") w2) /\
    anomaly_score e' = raised "rate_limit" (anomaly_score e) /\ ledger e' = ledger e
  else if negb v.1 then
    res = false /\
    w' = exec (log_event E "SECURE" ("Command nonce rejected: " +:+ v.2 +:+ ".") ORANGE)
           (exec (incident E "replay_fail") w4) /\
    anomaly_score e' = raised "replay_fail" (anomaly_score e)
  else
    res = true /\
    w' = exec (log_event E "SECURE" "Signed control frame verified. Engagement authorized." GREEN) w4 /\
    anomaly_score e' = anomaly_score e.
Proof.
  intros. split; [|apply engagement_run].
  unfold fresh_nonce, eval. run_monad. cbn [fst].
  pose proof (Z.mod_pos_bound (env_random E (reads w2)) (10 ^ 7 - 1 + 1)). lia.
Qed.

(** C10.  In the engagement workflow a nonce that fails validation raises
    the incident [replay_fail], whose weight is 0.7, whatever the reason: an
    expired nonce raises the score exactly as a replay does. *)
Theorem nonce_failure_raises_replay_fail E w :
  let e := SECURITY w in
  let w1 := exec (approvals_ok E "engage") w in
  let w2 := exec (check_rate_limit E) w1 in
  let w3 := exec (time_time E) (exec (random_randint E 1 (10 ^ 7)) w2) in
  let v := eval (validate_nonce E (fresh_nonce E w2)) w3 in
  let w4 := exec (validate_nonce E (fresh_nonce E w2)) w3 in
  let w' := exec (start_engagement_workflow E) w in
  eval (approvals_ok E "engage") w = true ->
  eval (check_rate_limit E) w1 = true ->
  v = RejectedReplay \/ v = RejectedExpired ->
  eval (start_engagement_workflow E) w = false /\
  w' = exec (log_event E "SECURE" ("Command nonce rejected: " +:+ v.2 +:+ ".") ORANGE)
         (exec (incident E "replay_fail") w4) /\
  severity !! "replay_fail" = Some Binary64.f0_7 /\
  anomaly_score (SECURITY w')
    = Binary64.min Binary64.f3_0 (Binary64.add (anomaly_score e) Binary64.f0_7).
Proof.
  intros e w1 w2 w3 v w4 w' Hq Hr Hv.
  pose proof (engagement_run E w) as H. cbv zeta in H.
  fold w1 in Hr. rewrite Hq in H. cbn [negb] in H.
  fold w1 w2 in H. rewrite Hr in H. cbn [negb] in H.
  fold w3 in H. fold v w4 w' in H.
  assert (Hv1 : v.1 = false) by (destruct Hv as [-> | ->]; reflexivity).
  rewrite Hv1 in H. cbn [negb] in H. destruct H as (H1 & H2 & H3).
  split; [exact H1|]. split; [exact H2|]. split; [reflexivity|]. exact H3.
Qed.

(** The witness of C10: A and B have approved at t=0 and the request is made
    at t=0, but the clock reads t=25 when the nonce, stamped t=0, is
    validated: the nonce is expired and the score goes from 0.0 to 0.7. *)
Lemma nonce_failure_raises_replay_fail_witness :
  let E := clock [0; 0; 0; 0; 0; 0; 0; 0; 0; 0; 0; 25] in
  let w := two_approvals E in
  eval (start_engagement_workflow E) w = false /\
  exec (start_engagement_workflow E) w
    = exec (log_event E "SECURE" ("Command nonce rejected: " +:+ RejectedExpired.2 +:+ ".") ORANGE)
        (exec (incident E "replay_fail")
           (exec (validate_nonce E (1, Binary64.of_Z 0))
              (exec (time_time E)
                 (exec (random_randint E 1 (10 ^ 7))
                    (exec (check_rate_limit E) (exec (approvals_ok E "engage") w)))))) /\
  severity !! "replay_fail" = Some Binary64.f0_7 /\
  anomaly_score (SECURITY (exec (start_engagement_workflow E) w))
    = Binary64.min Binary64.f3_0 (Binary64.add (anomaly_score (SECURITY w)) Binary64.f0_7).
Proof.
  intros E w.
  apply (nonce_failure_raises_replay_fail E w).
  - vm_compute. reflexivity.
  - vm_compute. reflexivity.
  - right. vm_compute. reflexivity.
Defined.

(** ** The approval quorum *)

Lemma add_approval_run E officer w :
  let w' := exec (add_approval E officer) w in
  approvals (SECURITY w') = <[officer := env_time E (reads w)]> (approvals (SECURITY w)) /\
  approvals_ttl (SECURITY w') = approvals_ttl (SECURITY w) /\
  required_engage (SECURITY w') = required_engage (SECURITY w) /\
  required_kill (SECURITY w') = required_kill (SECURITY w) /\
  reads w' = (3 + reads w)%nat.
Proof.
  intros w'. subst w'. unfold add_approval.
  rewrite !exec_bind, log_event_reads.
  match goal with |- context [exec (log_event E ?s ?m ?c) ?u] =>
    pose proof (log_event_core E s m c u) as H end.
  core_fields H. repeat split; try (etrans; [eassumption|reflexivity]).
Qed.

Lemma approve_all_run E officers w :
  let w' := exec (for_each officers (add_approval E)) w in
  approvals (SECURITY w') = record_all (approvals (SECURITY w)) (approval_seq E (reads w) officers) /\
  approvals_ttl (SECURITY w') = approvals_ttl (SECURITY w) /\
  required_engage (SECURITY w') = required_engage (SECURITY w) /\
  required_kill (SECURITY w') = required_kill (SECURITY w) /\
  reads w' = (3 * length officers + reads w)%nat.
Proof.
  revert w. induction officers as [|o os IH]; intros w w'.
  - subst w'. cbn. auto.
  - subst w'. cbn [for_each]. rewrite exec_bind.
    destruct (add_approval_run E o w) as (Ha & Ht & He & Hk & Hr).
    destruct (IH (exec (add_approval E o) w)) as (Ha' & Ht' & He' & Hk' & Hr').
    cbv zeta in *. rewrite Ha', Ht', He', Hk', Hr', Ha, Ht, He, Hk, Hr.
    cbn [approval_seq record_all foldl length fst snd]. repeat split; try reflexivity. lia.
Qed.

Lemma record_all_lookup m seq o :
  record_all m seq !! o = match granted_at seq o with Some t => Some t | None => m !! o end.
Proof.
  revert m. induction seq as [|[o' t] seq IH]; intros m; [reflexivity|].
  cbn [record_all foldl granted_at fst snd]. fold (record_all (<[o':=t]> m) seq). rewrite IH.
  destruct (granted_at seq o); [reflexivity|].
  destruct (String.eqb_spec o' o) as [->|Hne].
  - apply lookup_insert_eq.
  - by apply lookup_insert_ne.
Qed.

Lemma granted_at_officer seq o t : granted_at seq o = Some t -> o ∈ seq.*1.
Proof.
  induction seq as [|[o' t'] seq IH]; [discriminate|]. cbn. rewrite elem_of_cons.
  destruct (granted_at seq o).
  - intros Ht. right. by apply IH.
  - destruct (String.eqb_spec o' o) as [->|]; [by left|discriminate].
Qed.

Lemma size_fresh now ttl seq :
  size (filter (approval_fresh now ttl) (record_all ∅ seq)) = distinct_fresh now ttl seq.
Proof.
  unfold distinct_fresh.
  set (m := filter (approval_fresh now ttl) (record_all ∅ seq)).
  rewrite <- (size_dom (D := gset string)). unfold size, set_size. cbn.
  apply Permutation_length, NoDup_Permutation.
  - apply NoDup_elements.
  - apply NoDup_filter, NoDup_remove_dups.
  - intros o. rewrite elem_of_elements, elem_of_dom, list_elem_of_filter, elem_of_remove_dups.
    subst m. unfold is_Some. setoid_rewrite map_lookup_filter_Some.
    setoid_rewrite record_all_lookup. unfold counts, approval_fresh. cbn.
    destruct (granted_at seq o) as [t|] eqn:Hg.
    + split.
      * intros (t' & Ht' & Hf). simplify_eq. split; [exact Hf|]. by eapply granted_at_officer.
      * intros [Hf _]. eauto.
    + rewrite lookup_empty. split; [intros (? & ? & _); discriminate|intros [[] _]].
Qed.

Lemma approval_seq_officers E k officers : (approval_seq E k officers).*1 = officers.
Proof.
  revert k. induction officers as [|o os IH]; intros k; [reflexivity|].
  cbn. by rewrite IH.
Qed.

Lemma distinct_fresh_one_officer now ttl seq o :
  (forall x, x ∈ seq.*1 -> x = o) -> (distinct_fresh now ttl seq <= 1)%nat.
Proof.
  intros Ho. unfold distinct_fresh.
  etrans; [apply length_filter|].
  pose proof (NoDup_remove_dups (seq.*1)) as Hnd.
  assert (Hall : forall x, x ∈ remove_dups (seq.*1) -> x = o).
  { intros x Hx. apply Ho. by apply elem_of_remove_dups. }
  destruct (remove_dups (seq.*1)) as [|a [|b l]]; cbn; [lia|lia|].
  exfalso. apply NoDup_cons in Hnd as [Hnotin _]. apply Hnotin.
  rewrite (Hall a), (Hall b); [left| |]; rewrite !elem_of_cons; auto.
Qed.

(** C4.  After any sequence of approvals on an engine that had none,
    [approvals_ok] is true exactly when the number of distinct officers
    whose last approval satisfies [now - granted_at <= approvals_ttl] is at
    least the number the action requires.  One officer approving any number
    of times never reaches a quorum of two.  With a time to live of 12 s and
    approvals by A at t=0 and by B at t=5, the 2-of-3 quorum is met at t=10
    and is not met at t=13. *)
Theorem quorum_counts_distinct_fresh_officers :
  (forall E w officers action,
     approvals (SECURITY w) = ∅ ->
     let w1 := exec (for_each officers (add_approval E)) w in
     let seq := approval_seq E (reads w) officers in
     let now := env_time E (reads w1) in
     eval (approvals_ok E action) w1 = true
     <-> required (SECURITY w) action
         <= Z.of_nat (distinct_fresh now (approvals_ttl (SECURITY w)) seq)) /\
  (forall E w officer n action,
     approvals (SECURITY w) = ∅ ->
     2 <= required (SECURITY w) action ->
     eval (approvals_ok E action) (exec (for_each (replicate n officer) (add_approval E)) w)
       = false) /\
  (let E := clock [0; 0; 0; 0; 5; 0; 0; 10; 13] in
   let w2 := exec (for_each ["A"; "B"] (add_approval E)) (boot E) in
   approvals_ttl (SECURITY w2) = Binary64.f12_0 /\
   required (SECURITY w2) "engage" = 2 /\
   approval_seq E (reads (boot E)) ["A"; "B"]
     = [("A", Binary64.of_Z 0); ("B", Binary64.of_Z 5)] /\
   env_time E (reads w2) = Binary64.of_Z 10 /\
   eval (approvals_ok E "engage") w2 = true /\
   env_time E (reads (exec (approvals_ok E "engage") w2)) = Binary64.of_Z 13 /\
   eval (approvals_ok E "engage") (exec (approvals_ok E "engage") w2) = false) /\
  (let E := clock [0; 0; 0; 0; 5; 0; 0; 13] in
   let w2 := exec (for_each ["A"; "B"] (add_approval E)) (boot E) in
   env_time E (reads w2) = Binary64.of_Z 13 /\
   eval (approvals_ok E "engage") w2 = false).
Proof.
  assert (Hrun : forall E w officers action,
     approvals (SECURITY w) = ∅ ->
     let w1 := exec (for_each officers (add_approval E)) w in
     eval (approvals_ok E action) w1
       = (required (SECURITY w) action
          <=? Z.of_nat (distinct_fresh (env_time E (reads w1)) (approvals_ttl (SECURITY w))
                          (approval_seq E (reads w) officers)))).
  { intros E w officers action Hempty w1.
    destruct (approve_all_run E officers w) as (Ha & Ht & He & Hk & Hr).
    fold w1 in Ha, Ht, He, Hk, Hr.
    unfold eval. rewrite approvals_ok_run. cbn [fst].
    rewrite Ha, Ht, Hempty, size_fresh. unfold required. rewrite He, Hk. reflexivity. }
  split; [|split; [|split]].
  - intros E w officers action Hempty w1 seq now.
    subst w1 seq now. rewrite Hrun by exact Hempty. apply Z.leb_le.
  - intros E w officer n action Hempty Hreq. rewrite Hrun by exact Hempty.
    apply Z.leb_gt.
    match goal with |- context [distinct_fresh ?a ?b ?c] =>
      pose proof (distinct_fresh_one_officer a b c officer) as H1 end.
    rewrite approval_seq_officers in H1.
    assert (Hall : forall x, x ∈ replicate n officer -> x = officer)
      by (intros x Hx; apply elem_of_replicate in Hx; tauto).
    specialize (H1 Hall). lia.
  - vm_compute. repeat split; reflexivity.
  - vm_compute. repeat split; reflexivity.
Qed.

(** The witness of C4: A approves at t=0, B at t=5, and the engagement
    quorum is asked at t=10. *)
Lemma quorum_counts_distinct_fresh_officers_witness :
  let E := clock [0; 0; 0; 0; 5; 0; 0; 10] in
  let w1 := exec (for_each ["A"; "B"] (add_approval E)) (boot E) in
  eval (approvals_ok E "engage") w1 = true
  <-> required (SECURITY (boot E)) "engage"
      <= Z.of_nat (distinct_fresh (env_time E (reads w1)) (approvals_ttl (SECURITY (boot E)))
                     (approval_seq E (reads (boot E)) ["A"; "B"])).
Proof.
  intros E w1.
  apply (proj1 quorum_counts_distinct_fresh_officers E (boot E) ["A"; "B"] "engage").
  vm_compute. reflexivity.
Defined.

(** ** Order of the floats *)

Ltac float_cases :=
  unfold Binary64.ge, Binary64.gt, Binary64.le, Binary64.lt, SFleb, SFltb, SFcompare;
  repeat match goal with
         | x : float |- _ => destruct x as [[]|[]| |[] ? ?]
         | x : spec_float |- _ => destruct x as [[]|[]| |[] ? ?]
         end;
  cbn; try discriminate; try reflexivity;
  change (Pos.compare_cont Eq) with Pos.compare;
  repeat match goal with
         | |- context [(?a ?= ?b)%Z] => destruct (Z.compare_spec a b)
         | |- context [(?a ?= ?b)%positive] => destruct (Pos.compare_spec a b)
         end;
  cbn; try discriminate; try reflexivity; try lia.

Lemma float_le_trans (a b c : float) :
  Binary64.le a b = true -> Binary64.le b c = true -> Binary64.le a c = true.
Proof. float_cases. Qed.

Lemma float_le_lt_trans (a b c : float) :
  Binary64.le a b = true -> Binary64.lt b c = true -> Binary64.lt a c = true.
Proof. float_cases. Qed.

Lemma float_lt_not_ge (a b : float) : Binary64.lt a b = true -> Binary64.ge a b = false.
Proof. float_cases. Qed.

Lemma float_lt_le (a b : float) : Binary64.lt a b = true -> Binary64.le a b = true.
Proof. float_cases. Qed.

(** ** The failsafe ladder *)

Lemma failsafe_state_run w :
  let s := anomaly_score (SECURITY w) in
  failsafe_state w =
    (if Binary64.ge s Binary64.f2_2 then "RTB"
     else if Binary64.ge s Binary64.f1_3 then "HOLD"
     else if Binary64.ge s Binary64.f0_6 then "DEGRADE"
     else "NONE", w).
Proof.
  intros s. unfold failsafe_state. run_monad. fold s.
  repeat destruct (Binary64.ge s _); reflexivity.
Qed.

(** C5.  [failsafe_state] reads the score and changes nothing; it is
    defined on every score and answers RTB from 2.2 up, HOLD from 1.3 up to
    2.2, DEGRADE from 0.6 up to 1.3 and NONE below 0.6, a score on a
    threshold getting the higher mode; and it is monotone: a score that is
    not larger never gets a more restrictive mode, in the order
    NONE < DEGRADE < HOLD < RTB. *)
Theorem failsafe_ladder :
  (forall w, exec failsafe_state w = w) /\
  (forall w,
     let s := anomaly_score (SECURITY w) in
     let mode := eval failsafe_state w in
     (Binary64.ge s Binary64.f2_2 = true -> mode = "RTB") /\
     (Binary64.ge s Binary64.f1_3 = true -> Binary64.lt s Binary64.f2_2 = true -> mode = "HOLD") /\
     (Binary64.ge s Binary64.f0_6 = true -> Binary64.lt s Binary64.f1_3 = true -> mode = "DEGRADE") /\
     (Binary64.lt s Binary64.f0_6 = true -> mode = "NONE") /\
     (mode = "NONE" \/ mode = "DEGRADE" \/ mode = "HOLD" \/ mode = "RTB")) /\
  (forall w1 w2,
     Binary64.le (anomaly_score (SECURITY w1)) (anomaly_score (SECURITY w2)) = true ->
     mode_rank (eval failsafe_state w1) <= mode_rank (eval failsafe_state w2)) /\
  (forall w,
     eval failsafe_state (with_score Binary64.f2_2 w) = "RTB" /\
     eval failsafe_state (with_score Binary64.f1_3 w) = "HOLD" /\
     eval failsafe_state (with_score Binary64.f0_6 w) = "DEGRADE" /\
     eval failsafe_state (with_score Binary64.f0_0 w) = "NONE" /\
     mode_rank "NONE" < mode_rank "DEGRADE" < mode_rank "HOLD" /\
     mode_rank "HOLD" < mode_rank "RTB").
Proof.
  split; [|split; [|split]].
  - intros w. unfold exec. rewrite failsafe_state_run. reflexivity.
  - intros w s mode. subst mode. unfold eval. rewrite failsafe_state_run. fold s. cbn [fst].
    assert (H1 : Binary64.lt s Binary64.f2_2 = true -> Binary64.ge s Binary64.f2_2 = false)
      by apply float_lt_not_ge.
    assert (H2 : Binary64.lt s Binary64.f1_3 = true -> Binary64.ge s Binary64.f1_3 = false)
      by apply float_lt_not_ge.
    assert (H3 : Binary64.lt s Binary64.f0_6 = true -> Binary64.ge s Binary64.f0_6 = false)
      by apply float_lt_not_ge.
    assert (H4 : Binary64.lt s Binary64.f0_6 = true -> Binary64.ge s Binary64.f1_3 = false).
    { intros Hlt. apply float_lt_not_ge. apply float_lt_le in Hlt.
      eapply float_le_lt_trans; [exact Hlt|]. reflexivity. }
    assert (H5 : Binary64.lt s Binary64.f1_3 = true -> Binary64.ge s Binary64.f2_2 = false).
    { intros Hlt. apply float_lt_not_ge. apply float_lt_le in Hlt.
      eapply float_le_lt_trans; [exact Hlt|]. reflexivity. }
    assert (H6 : Binary64.lt s Binary64.f0_6 = true -> Binary64.ge s Binary64.f2_2 = false).
    { intros Hlt. apply float_lt_not_ge. apply float_lt_le in Hlt.
      eapply float_le_lt_trans; [exact Hlt|]. reflexivity. }
    repeat split.
    + intros ->. reflexivity.
    + intros Hge Hlt. rewrite (H1 Hlt), Hge. reflexivity.
    + intros Hge Hlt. rewrite (H5 Hlt), (H2 Hlt), Hge. reflexivity.
    + intros Hlt. rewrite (H6 Hlt), (H4 Hlt), (H3 Hlt). reflexivity.
    + repeat destruct (Binary64.ge s _); auto.
  - intros w1 w2 Hle. unfold eval. rewrite !failsafe_state_run. cbn [fst].
    set (s1 := anomaly_score (SECURITY w1)) in *. set (s2 := anomaly_score (SECURITY w2)) in *.
    assert (Hup : forall c, Binary64.ge s1 c = true -> Binary64.ge s2 c = true).
    { intros c Hc. unfold Binary64.ge in *. eapply float_le_trans; eassumption. }
    destruct (Binary64.ge s1 Binary64.f2_2) eqn:G1.
    { rewrite (Hup _ G1). reflexivity. }
    destruct (Binary64.ge s1 Binary64.f1_3) eqn:G2.
    { rewrite (Hup _ G2). destruct (Binary64.ge s2 Binary64.f2_2); vm_compute; discriminate. }
    destruct (Binary64.ge s1 Binary64.f0_6) eqn:G3.
    { rewrite (Hup _ G3). repeat destruct (Binary64.ge s2 _); vm_compute; discriminate. }
    repeat destruct (Binary64.ge s2 _); vm_compute; discriminate.
  - intros w. unfold eval. rewrite !failsafe_state_run. cbn. repeat split.
Qed.

(** The witness of C5: the score 2.0, reached by two civilian incidents, is
    at least 1.3 and below 2.2, and the mode is HOLD. *)
Lemma failsafe_ladder_witness :
  eval failsafe_state (with_score (raised "civilian" (raised "civilian" Binary64.f0_0))
                         (boot (clock []))) = "HOLD".
Proof.
  apply (proj1 (proj2 (proj1 (proj2 failsafe_ladder) _))); vm_compute; reflexivity.
Defined.

(** ** Invariants of the monad *)

Lemma preserves_bind {A B} P (m : M A) (k : A -> M B) :
  preserves P m -> (forall a, preserves P (k a)) -> preserves P (m ≫= k).
Proof. intros Hm Hk w Hw. rewrite exec_bind. apply Hk, Hm, Hw. Qed.

Lemma preserves_ret {A} P (a : A) : preserves P (mret a).
Proof. intros w Hw. exact Hw. Qed.

Lemma preserves_gets {A} P (f : World -> A) : preserves P (gets f).
Proof. intros w Hw. exact Hw. Qed.

Lemma preserves_modify P (f : World -> World) :
  (forall w, P w -> P (f w)) -> preserves P (modify f).
Proof. intros Hf w Hw. apply Hf, Hw. Qed.

Lemma preserves_for_each {A} P (l : list A) (f : A -> M unit) :
  (forall x, preserves P (f x)) -> preserves P (for_each l f).
Proof.
  intros Hf. induction l as [|x l IH]; [apply preserves_ret|].
  cbn [for_each]. apply preserves_bind; [apply Hf|intros _; exact IH].
Qed.

(** Break an action into its binds, branches and primitive steps. *)
Ltac preserves_step :=
  match goal with
  | |- preserves _ (_ ≫= _) => apply preserves_bind; [|intros ?]
  | |- preserves _ (mret _) => apply preserves_ret
  | |- preserves _ (gets _) => apply preserves_gets
  | |- preserves _ (for_each _ _) => apply preserves_for_each; intros ?
  | |- preserves _ (when ?b _) => unfold when; destruct b
  | |- preserves _ (if ?b then _ else _) => destruct b
  | |- preserves _ (match ?x with _ => _ end) => destruct x
  | |- preserves _ (let _ := _ in _) => cbv zeta
  end.

Ltac head_of x := lazymatch x with ?f _ => head_of f | _ => x end.

Create HintDb preserves.

(** [preserves_by leaf]: split the action; where a lemma of the hint base
    applies use it, at a primitive step run [leaf], otherwise unfold the
    function at the head. *)
Ltac preserves_by leaf :=
  repeat first
    [ preserves_step
    | solve [eauto 2 with preserves]
    | match goal with
      | |- preserves _ (modify _) => apply preserves_modify; solve [leaf]
      | |- preserves _ (modify_SECURITY _) => apply preserves_modify; solve [leaf]
      | |- preserves _ next_read => apply preserves_modify; solve [leaf]
      end
    | match goal with
      | |- preserves _ ?m =>
          let h := head_of m in
          lazymatch h with
          | @modify => fail
          | @modify_SECURITY => fail
          | @next_read => fail
          | _ => unfold h
          end
      end ].


(** ** Rounding to binary64 *)

(** The score is computed in binary64: what follows is what the range of
    the score needs of the rounding of a sum or a difference. *)

Lemma fexp_eq e : fexp 53 1024 e = Z.max (e - 53) (-1074).
Proof. reflexivity. Qed.

Lemma digits2_bounds p :
  2 ^ (Zpos (digits2_pos p) - 1) <= Zpos p < 2 ^ Zpos (digits2_pos p).
Proof.
  induction p as [p IH|p IH|]; cbn [digits2_pos].
  - rewrite Pos2Z.inj_succ. change (Zpos p~1) with (2 * Zpos p + 1).
    replace (Z.succ (Zpos (digits2_pos p)) - 1) with (Z.succ (Zpos (digits2_pos p) - 1)) by lia.
    rewrite !Z.pow_succ_r by lia. lia.
  - rewrite Pos2Z.inj_succ. change (Zpos p~0) with (2 * Zpos p).
    replace (Z.succ (Zpos (digits2_pos p)) - 1) with (Z.succ (Zpos (digits2_pos p) - 1)) by lia.
    rewrite !Z.pow_succ_r by lia. lia.
  - cbn. lia.
Qed.

Lemma digits2_unique p k :
  2 ^ (k - 1) <= Zpos p < 2 ^ k -> Zpos (digits2_pos p) = k.
Proof.
  intros [Hlo Hhi]. pose proof (digits2_bounds p) as [Dlo Dhi].
  destruct (Z.lt_trichotomy (Zpos (digits2_pos p)) k) as [Hlt|[Heq|Hgt]]; [|exact Heq|].
  - assert (2 ^ Zpos (digits2_pos p) <= 2 ^ (k - 1)) by (apply Z.pow_le_mono_r; lia). lia.
  - assert (2 ^ k <= 2 ^ (Zpos (digits2_pos p) - 1)) by (apply Z.pow_le_mono_r; lia). lia.
Qed.

Lemma shr_1_m mrs : 0 <= shr_m mrs -> shr_m (shr_1 mrs) = shr_m mrs / 2.
Proof.
  destruct mrs as [[|[p|p|]|p] r s]; cbn [shr_m shr_1]; intros H;
    try lia; rewrite <- Z.div2_div; reflexivity.
Qed.

Lemma iter_shr_1_m p : forall mrs,
  0 <= shr_m mrs -> shr_m (SpecFloat.iter_pos shr_1 p mrs) = shr_m mrs / 2 ^ Zpos p.
Proof.
  induction p as [p IH|p IH|]; intros mrs Hm; cbn [SpecFloat.iter_pos].
  - assert (H1 : 0 <= shr_m (shr_1 mrs)) by (rewrite shr_1_m by lia; apply Z.div_pos; lia).
    assert (H2 : 0 <= shr_m (SpecFloat.iter_pos shr_1 p (shr_1 mrs))).
    { rewrite IH by lia. apply Z.div_pos; [lia|]. apply Z.pow_pos_nonneg; lia. }
    rewrite IH, IH, shr_1_m by lia.
    rewrite !Z.div_div by (try apply Z.pow_pos_nonneg; lia).
    f_equal. change (Zpos p~1) with (2 * Zpos p + 1). rewrite Z.pow_add_r, Z.pow_mul_r by lia.
    change (2 ^ 2) with 4. change (2 ^ 1) with 2.
    replace 4 with (2 * 2) by lia. rewrite Z.pow_mul_l. lia.
  - assert (H2 : 0 <= shr_m (SpecFloat.iter_pos shr_1 p mrs)).
    { rewrite IH by lia. apply Z.div_pos; [lia|]. apply Z.pow_pos_nonneg; lia. }
    rewrite IH, IH by lia.
    rewrite !Z.div_div by (try apply Z.pow_pos_nonneg; lia).
    f_equal. change (Zpos p~0) with (2 * Zpos p). rewrite Z.pow_mul_r by lia.
    change (2 ^ 2) with 4. replace 4 with (2 * 2) by lia. rewrite Z.pow_mul_l. lia.
  - rewrite shr_1_m by lia. reflexivity.
Qed.

Lemma shr_spec mrs e n :
  0 <= shr_m mrs ->
  shr_m (fst (shr mrs e n)) = shr_m mrs / 2 ^ Z.max n 0 /\ snd (shr mrs e n) = e + Z.max n 0.
Proof.
  intros Hm. destruct n as [|p|p]; cbn [shr fst snd].
  - cbn. rewrite Z.div_1_r. lia.
  - rewrite iter_shr_1_m by lia. rewrite Z.max_l by lia. split; reflexivity.
  - rewrite Z.max_r by lia. cbn. rewrite Z.div_1_r. lia.
Qed.

Lemma iter_xO m d : Zpos (Pos.iter xO m d) = Zpos m * 2 ^ Zpos d.
Proof.
  induction d as [|d IH] using Pos.peano_ind.
  - cbn. lia.
  - rewrite Pos.iter_succ. change (Zpos (Pos.iter xO m d)~0) with (2 * Zpos (Pos.iter xO m d)).
    rewrite IH, Pos2Z.inj_succ, Z.pow_succ_r by lia. lia.
Qed.

Lemma shl_align_spec m e e' :
  (e' < e /\ Zpos (fst (shl_align m e e')) = Zpos m * 2 ^ (e - e') /\ snd (shl_align m e e') = e') \/
  (e <= e' /\ shl_align m e e' = (m, e)).
Proof.
  unfold shl_align. destruct (e' - e) as [|p|p] eqn:Hd.
  - right. split; [lia|reflexivity].
  - right. split; [lia|reflexivity].
  - left. cbn [fst snd]. rewrite iter_xO. replace (e - e') with (Zpos p) by lia.
    repeat split; lia.
Qed.

Lemma binary_round_aux_pack sx mx ex lx :
  binary_round_aux 53 1024 sx mx ex lx
    = pack sx (round_nearest_even (shr_m (fst (shr_fexp 53 1024 mx ex lx)))
                                  (loc_of_shr_record (fst (shr_fexp 53 1024 mx ex lx))))
              (snd (shr_fexp 53 1024 mx ex lx)).
Proof. unfold binary_round_aux, pack. destruct (shr_fexp 53 1024 mx ex lx). reflexivity. Qed.

Lemma round_nearest_even_cases m l :
  round_nearest_even m l = m \/ round_nearest_even m l = m + 1.
Proof. destruct l as [|[]]; cbn; try destruct (Z.even m); auto. Qed.

Lemma digits2_le p k : Zpos p < 2 ^ k -> Zpos (digits2_pos p) <= k.
Proof.
  intros Hp. pose proof (digits2_bounds p) as [Dlo _].
  destruct (Z.le_gt_cases (Zpos (digits2_pos p)) k) as [|Hgt]; [assumption|].
  assert (2 ^ k <= 2 ^ (Zpos (digits2_pos p) - 1)) by (apply Z.pow_le_mono_r; lia). lia.
Qed.

Lemma digits2_ge p k : 2 ^ (k - 1) <= Zpos p -> k <= Zpos (digits2_pos p).
Proof.
  intros Hp. pose proof (digits2_bounds p) as [_ Dhi].
  destruct (Z.le_gt_cases k (Zpos (digits2_pos p))) as [|Hgt]; [assumption|].
  assert (2 ^ Zpos (digits2_pos p) <= 2 ^ (k - 1)) by (apply Z.pow_le_mono_r; lia). lia.
Qed.

Lemma pack_spec sx m2 f :
  -1074 <= f -> 0 <= m2 <= 2 ^ 53 -> 2 ^ 52 <= m2 \/ f = -1074 ->
  (m2 = 0 /\ pack sx m2 f = S754_zero sx) \/
  (971 <= f /\ pack sx m2 f = S754_infinity sx) \/
  (exists m e, pack sx m2 f = S754_finite sx m e /\ bounded 53 1024 m e = true /\
     ((Zpos m = m2 /\ e = f) \/ (m2 = 2 ^ 53 /\ Zpos m = 2 ^ 52 /\ e = f + 1))).
Proof.
  intros Hf Hm Hn. unfold pack, shr_fexp.
  destruct m2 as [|p|p]; [| |lia].
  - left. split; [reflexivity|].
    cbn [Zdigits2 shr_record_of_loc]. rewrite fexp_eq.
    destruct (Z.max (0 + f - 53) (-1074) - f) as [|q|q] eqn:Hq; [reflexivity|lia|reflexivity].
  - right. cbn [Zdigits2 shr_record_of_loc].
    pose proof (digits2_bounds p) as [Dlo Dhi].
    destruct (Z.eq_dec (Zpos p) (2 ^ 53)) as [Htop|Htop].
    + (* the mantissa has overflowed: one more shift *)
      assert (HD : Zpos (digits2_pos p) = 54) by (apply digits2_unique; rewrite Htop; cbn; lia).
      rewrite HD, fexp_eq. replace (Z.max (54 + f - 53) (-1074) - f) with 1 by lia.
      cbn [shr SpecFloat.iter_pos].
      assert (Hs := shr_1_m {| shr_m := Zpos p; shr_r := false; shr_s := false |}).
      cbn [shr_m] in Hs. rewrite Hs by lia. rewrite Htop.
      change (2 ^ 53 / 2) with (Zpos 4503599627370496).
      destruct (f + 1 <=? 1024 - 53) eqn:Hb.
      * right. exists 4503599627370496%positive, (f + 1). split; [reflexivity|].
        split; [|right; split; [reflexivity|split; reflexivity]].
        unfold bounded, canonical_mantissa. rewrite Hb, andb_true_r, fexp_eq.
        change (Zpos (digits2_pos 4503599627370496)) with 53. apply Z.eqb_eq. lia.
      * left. split; [|reflexivity]. apply Z.leb_gt in Hb. lia.
    + assert (HD : Zpos (digits2_pos p) <= 53) by (apply digits2_le; lia).
      assert (HD' : 2 ^ 52 <= Zpos p -> 53 <= Zpos (digits2_pos p)).
      { intros H52. apply digits2_ge. exact H52. }
      assert (Hn0 : fexp 53 1024 (Zpos (digits2_pos p) + f) - f = 0).
      { rewrite fexp_eq. destruct Hn as [H52| ->]; [specialize (HD' H52)|]; lia. }
      rewrite Hn0. cbn [shr shr_m].
      destruct (f <=? 1024 - 53) eqn:Hb.
      * right. exists p, f. split; [reflexivity|]. split; [|left; split; reflexivity].
        unfold bounded, canonical_mantissa. rewrite Hb, andb_true_r. apply Z.eqb_eq. lia.
      * left. split; [|reflexivity]. apply Z.leb_gt in Hb. lia.
Qed.

Lemma binary_round_spec sx d ez :
  let f := fexp 53 1024 (Zpos (digits2_pos d) + ez) in
  let m1 := if ez <=? f then Zpos d / 2 ^ (f - ez) else Zpos d * 2 ^ (ez - f) in
  exists m2, (m2 = m1 \/ m2 = m1 + 1) /\ binary_round 53 1024 sx d ez = pack sx m2 f /\
    -1074 <= f /\ 0 <= m1 < 2 ^ 53 /\ (2 ^ 52 <= m1 \/ f = -1074).
Proof.
  intros f m1. unfold binary_round. fold f.
  pose proof (digits2_bounds d) as [Dlo Dhi].
  assert (Hf : f = Z.max (Zpos (digits2_pos d) + ez - 53) (-1074)) by reflexivity.
  destruct (shl_align_spec d ez f) as [(Hlt & Hm & He)|(Hle & Heq)].
  - destruct (shl_align d ez f) as [mz ez'] eqn:Hs. cbn [fst snd] in Hm, He. subst ez'.
    rewrite binary_round_aux_pack.
    assert (Hd : Zpos (digits2_pos mz) = Zpos (digits2_pos d) + (ez - f)).
    { apply digits2_unique. rewrite Hm.
      replace (Zpos (digits2_pos d) + (ez - f) - 1)
        with ((Zpos (digits2_pos d) - 1) + (ez - f)) by lia.
      rewrite !Z.pow_add_r by lia.
      assert (0 < 2 ^ (ez - f)) by (apply Z.pow_pos_nonneg; lia). nia. }
    assert (Hm1 : m1 = Zpos mz).
    { subst m1. rewrite (proj2 (Z.leb_gt ez f)) by lia. now rewrite Hm. }
    assert (Hn0 : fexp 53 1024 (Zdigits2 (Zpos mz) + f) - f = 0).
    { cbn [Zdigits2]. rewrite Hd. replace (Zpos (digits2_pos d) + (ez - f) + f)
        with (Zpos (digits2_pos d) + ez) by lia. fold f. lia. }
    unfold shr_fexp. rewrite Hn0.
    cbn [shr shr_record_of_loc fst snd shr_m loc_of_shr_record round_nearest_even].
    exists (Zpos mz). rewrite Hm1. split; [left; reflexivity|]. split; [reflexivity|].
    split; [lia|].
    pose proof (digits2_bounds mz) as [Mlo Mhi]. rewrite Hd in Mlo, Mhi.
    split; [split; [lia|]|].
    + assert (2 ^ (Zpos (digits2_pos d) + (ez - f)) <= 2 ^ 53) by (apply Z.pow_le_mono_r; lia).
      lia.
    + destruct (Z.eq_dec f (-1074)) as [|Hne]; [right; assumption|left].
      replace (Zpos (digits2_pos d) + (ez - f) - 1) with 52 in Mlo by lia. exact Mlo.
  - rewrite Heq, binary_round_aux_pack. unfold shr_fexp. cbn [Zdigits2]. fold f.
    destruct (shr_spec (shr_record_of_loc (Zpos d) loc_Exact) ez (f - ez)) as [Hm He];
      [cbn; lia|].
    cbn [shr_record_of_loc shr_m] in Hm. rewrite Z.max_l in Hm, He by lia.
    assert (Hm1 : m1 = Zpos d / 2 ^ (f - ez)).
    { subst m1. now rewrite (proj2 (Z.leb_le ez f)) by lia. }
    set (r := shr (shr_record_of_loc (Zpos d) loc_Exact) ez (f - ez)) in *.
    cbn [shr_record_of_loc] in r. fold r.
    exists (round_nearest_even (shr_m (fst r)) (loc_of_shr_record (fst r))).
    rewrite He. replace (ez + (f - ez)) with f by lia.
    split; [rewrite Hm1, <- Hm; apply round_nearest_even_cases|].
    split; [reflexivity|]. split; [lia|].
    assert (Hp : 0 < 2 ^ (f - ez)) by (apply Z.pow_pos_nonneg; lia).
    rewrite Hm1. split; [split|].
    + apply Z.div_pos; lia.
    + apply Z.div_lt_upper_bound; [exact Hp|].
      rewrite <- Z.pow_add_r by lia.
      assert (2 ^ Zpos (digits2_pos d) <= 2 ^ (f - ez + 53)) by (apply Z.pow_le_mono_r; lia).
      lia.
    + destruct (Z.eq_dec f (-1074)) as [|Hne]; [right; assumption|left].
      apply Z.div_le_lower_bound; [exact Hp|].
      rewrite <- Z.pow_add_r by lia.
      replace (f - ez + 52) with (Zpos (digits2_pos d) - 1) by lia. exact Dlo.
Qed.

Lemma binary_round_cases sx d ez :
  binary_round 53 1024 sx d ez = S754_zero sx \/
  binary_round 53 1024 sx d ez = S754_infinity sx \/
  exists m e, binary_round 53 1024 sx d ez = S754_finite sx m e /\ bounded 53 1024 m e = true.
Proof.
  destruct (binary_round_spec sx d ez) as (m2 & Hm2 & -> & Hf & Hm1 & Hn).
  cbv zeta in *.
  set (f := fexp 53 1024 (Zpos (digits2_pos d) + ez)) in *.
  set (m1 := if ez <=? f then _ else _) in *.
  assert (H2 : 0 <= m2 <= 2 ^ 53) by (destruct Hm2; lia).
  assert (H3 : 2 ^ 52 <= m2 \/ f = -1074) by (destruct Hm2; lia).
  destruct (pack_spec sx m2 f Hf H2 H3) as [(_ & ->)|[(_ & ->)|(m & e & -> & Hb & _)]];
    [left; reflexivity|right; left; reflexivity|right; right; exists m, e; split; [reflexivity|exact Hb]].
Qed.

Lemma binary_round_below3 d ez :
  ez <= 0 -> Zpos d < 3 * 2 ^ (- ez) ->
  SFleb (binary_round 53 1024 false d ez) Binary64.f3_0 = true.
Proof.
  intros Hez Hd.
  pose proof (binary_round_spec false d ez) as Hspec. cbv zeta in Hspec.
  pose proof (fexp_eq (Zpos (digits2_pos d) + ez)) as Hfe.
  remember (fexp 53 1024 (Zpos (digits2_pos d) + ez)) as f eqn:Hfdef. clear Hfdef.
  destruct Hspec as (m2 & Hm2 & -> & Hf & Hm1 & Hn).
  pose proof (digits2_bounds d) as [Dlo Dhi].
  assert (HE : Zpos (digits2_pos d) + ez <= 2).
  { assert (Hlt : 2 ^ (Zpos (digits2_pos d) - 1) < 2 ^ (2 - ez)).
    { replace (2 - ez) with (2 + - ez) by lia. rewrite (Z.pow_add_r 2 2) by lia.
      change (2 ^ 2) with 4. assert (0 < 2 ^ (- ez)) by (apply Z.pow_pos_nonneg; lia). lia. }
    apply Z.pow_lt_mono_r_iff in Hlt; lia. }
  assert (Hb : (if ez <=? f then Zpos d / 2 ^ (f - ez) else Zpos d * 2 ^ (ez - f))
               < 3 * 2 ^ (- f)).
  { destruct (Z.leb_spec ez f).
    - apply Z.div_lt_upper_bound; [apply Z.pow_pos_nonneg; lia|].
      replace (2 ^ (f - ez) * (3 * 2 ^ (- f))) with (3 * (2 ^ (f - ez) * 2 ^ (- f))) by lia.
      rewrite <- Z.pow_add_r by lia. replace (f - ez + - f) with (- ez) by lia. exact Hd.
    - replace (- f) with (- ez + (ez - f)) by lia. rewrite Z.pow_add_r by lia.
      assert (0 < 2 ^ (ez - f)) by (apply Z.pow_pos_nonneg; lia). nia. }
  remember (if ez <=? f then Zpos d / 2 ^ (f - ez) else Zpos d * 2 ^ (ez - f)) as m1 eqn:Hm1def.
  clear Hm1def.
  assert (Hb2 : m2 <= 3 * 2 ^ (- f)) by (destruct Hm2; lia).
  assert (H2 : 0 <= m2 <= 2 ^ 53) by (destruct Hm2; lia).
  assert (H3 : 2 ^ 52 <= m2 \/ f = -1074) by (destruct Hm2; lia).
  assert (Hf51 : f <= -51) by lia.
  clear Hfe Hm2 Hm1 Hn Hb HE Dlo Dhi Hd Hez.
  destruct (pack_spec false m2 f Hf H2 H3) as [(_ & ->)|[(? & _)|(m & e & -> & _ & Hme)]];
    [reflexivity|lia|].
  unfold SFleb, SFcompare, Binary64.f3_0. rewrite Pos.compare_cont_spec.
  destruct Hme as [(Hm & ->)|(Hm & Hm' & ->)].
  - destruct (Z.compare_spec f (-51)) as [Heq|Hlt|Hgt]; [|reflexivity|lia].
    rewrite Heq in Hb2. change (3 * 2 ^ (- -51)) with 6755399441055744 in Hb2.
    destruct (Pos.compare_spec m 6755399441055744) as [| |Hgt]; [reflexivity|reflexivity|lia].
  - assert (f <> -51).
    { intros Heq. rewrite Heq in Hb2. change (3 * 2 ^ (- -51)) with 6755399441055744 in Hb2.
      rewrite Hm in Hb2. change (2 ^ 53) with 9007199254740992 in Hb2. lia. }
    destruct (Z.compare_spec (f + 1) (-51)) as [Heq|Hlt|Hgt]; [|reflexivity|lia].
    destruct (Pos.compare_spec m 6755399441055744) as [| |Hgt]; [reflexivity|reflexivity|].
    change (2 ^ 52) with 4503599627370496 in Hm'. lia.
Qed.

Lemma score_ok_cases s :
  score_ok s = true ->
  (exists sx, s = S754_zero sx) \/
  (exists m e, s = S754_finite false m e /\ bounded 53 1024 m e = true /\
     e <= -51 /\ Zpos m <= 3 * 2 ^ (- e)).
Proof.
  unfold score_ok, well_formed, in_range, Binary64.le, SFleb.
  intros H. apply andb_prop in H as [Hv H]. apply andb_prop in H as [H0 H3].
  destruct s as [sx|[]| |[] m e]; try discriminate; [left; eauto|right].
  exists m, e. split; [reflexivity|]. cbn [valid_binary] in Hv. split; [exact Hv|].
  unfold bounded, canonical_mantissa in Hv. apply andb_prop in Hv as [Hc _].
  apply Z.eqb_eq in Hc. rewrite fexp_eq in Hc.
  pose proof (digits2_bounds m) as [_ Dhi].
  assert (Hm : Zpos m < 2 ^ 53).
  { assert (2 ^ Zpos (digits2_pos m) <= 2 ^ 53) by (apply Z.pow_le_mono_r; lia). lia. }
  unfold SFcompare, Binary64.f3_0 in H3. rewrite Pos.compare_cont_spec in H3.
  destruct (Z.compare_spec e (-51)) as [Heq|Hlt|Hgt]; [| |discriminate].
  - subst e. split; [lia|]. change (3 * 2 ^ (- -51)) with 6755399441055744.
    destruct (m ?= 6755399441055744)%positive eqn:Hcmp; [| |discriminate].
    + apply Pos.compare_eq in Hcmp. rewrite Hcmp. apply Z.le_refl.
    + apply Z.lt_le_incl. exact Hcmp.
  - split; [lia|].
    assert (2 ^ 52 <= 2 ^ (- e)) by (apply Z.pow_le_mono_r; lia).
    change (2 ^ 53) with (2 * 2 ^ 52) in Hm. lia.
Qed.

Lemma max_floor_ok x :
  well_formed x = true ->
  (Binary64.lt Binary64.f0_0 x = true -> Binary64.le x Binary64.f3_0 = true) ->
  score_ok (Binary64.max Binary64.f0_0 x) = true.
Proof.
  intros Hv Hle. unfold Binary64.max, Binary64.gt. fold (Binary64.lt Binary64.f0_0 x).
  destruct (Binary64.lt Binary64.f0_0 x) eqn:Hlt; [|reflexivity].
  unfold score_ok, in_range. rewrite Hv, (float_lt_le _ _ Hlt), Hle; reflexivity.
Qed.

Lemma min_cap_ok x :
  well_formed x = true -> Binary64.le Binary64.f0_0 x = true ->
  score_ok (Binary64.min Binary64.f3_0 x) = true.
Proof.
  intros Hv Hle. unfold Binary64.min.
  destruct (Binary64.lt x Binary64.f3_0) eqn:Hlt; [|reflexivity].
  unfold score_ok, in_range. rewrite Hv, Hle, (float_lt_le _ _ Hlt); reflexivity.
Qed.

Lemma decayed_ok s : score_ok s = true -> score_ok (decayed s) = true.
Proof.
  intros Hs. unfold decayed. apply score_ok_cases in Hs as [(sx & ->)|(m & e & -> & Hb & He & Hm)].
  - destruct sx; reflexivity.
  - unfold Binary64.sub, SFsub, Binary64.f0_02, Binary64.prec, Binary64.emax.
    cbn [cond_Zopp].
    set (ez := Z.min e (-58)).
    set (a := Zpos (fst (shl_align m e ez))).
    set (b := Zpos (fst (shl_align 5764607523034235 (-58) ez))).
    assert (Ha : a <= 3 * 2 ^ (- ez)).
    { subst a. destruct (shl_align_spec m e ez) as [(Hlt & -> & _)|(Hle & ->)].
      - replace (- ez) with (- e + (e - ez)) by lia. rewrite Z.pow_add_r by lia.
        assert (0 < 2 ^ (e - ez)) by (apply Z.pow_pos_nonneg; lia). nia.
      - cbn [fst]. replace ez with e by lia. exact Hm. }
    assert (Hb0 : 0 < b) by (subst b; lia).
    destruct (a - b) as [|dz|dz] eqn:Hz; cbn [binary_normalize].
    + reflexivity.
    + apply max_floor_ok.
      * unfold well_formed, Binary64.prec, Binary64.emax.
        destruct (binary_round_cases false dz ez) as [->|[->|(m' & e' & -> & Hb')]];
          [reflexivity|reflexivity|exact Hb'].
      * intros _. apply binary_round_below3; lia.
    + apply max_floor_ok.
      * unfold well_formed, Binary64.prec, Binary64.emax.
        destruct (binary_round_cases true dz ez) as [->|[->|(m' & e' & -> & Hb')]];
          [reflexivity|reflexivity|exact Hb'].
      * destruct (binary_round_cases true dz ez) as [->|[->|(m' & e' & -> & Hb')]];
          discriminate.
Qed.

Lemma weight_cases kind :
  In (weight kind)
     [Binary64.f0_7; Binary64.f0_5; Binary64.f0_9; Binary64.f0_6; Binary64.f1_0;
      Binary64.f0_8; Binary64.f0_3].
Proof.
  unfold weight, severity. cbn [list_to_map foldr fst snd].
  rewrite !lookup_insert, lookup_empty.
  repeat case_decide; cbn; tauto.
Qed.

Lemma weight_finite kind :
  exists m e, weight kind = S754_finite false m e /\ bounded 53 1024 m e = true.
Proof.
  pose proof (weight_cases kind) as H. cbn [In] in H.
  repeat destruct H as [<-|H]; try (do 2 eexists; split; reflexivity). destruct H.
Qed.

Lemma binary_normalize_sum a b ez :
  binary_normalize 53 1024 (Zpos a + Zpos b) ez false = binary_round 53 1024 false (a + b) ez.
Proof. reflexivity. Qed.

Lemma raised_ok kind s : score_ok s = true -> score_ok (raised kind s) = true.
Proof.
  intros Hs. unfold raised. destruct (weight_finite kind) as (mw & ew & -> & Hw).
  apply score_ok_cases in Hs as [(sx & ->)|(m & e & -> & Hb & He & Hm)].
  - apply min_cap_ok; [exact Hw|reflexivity].
  - unfold Binary64.add, SFadd, Binary64.prec, Binary64.emax. cbn [cond_Zopp].
    rewrite binary_normalize_sum.
    destruct (binary_round_cases false
               (fst (shl_align m e (Z.min e ew)) + fst (shl_align mw ew (Z.min e ew)))
               (Z.min e ew))
      as [H|[H|(m' & e' & H & Hb')]]; rewrite H;
      (apply min_cap_ok; [first [exact Hb'|reflexivity]|reflexivity]).
Qed.

Lemma forced_ok s : score_ok s = true -> score_ok (Binary64.max s Binary64.f2_2) = true.
Proof.
  intros Hs. unfold Binary64.max. destruct (Binary64.gt Binary64.f2_2 s); [reflexivity|exact Hs].
Qed.
(** ** The range of the score *)

Ltac score_leaf :=
  intros ? ?; unfold score_in_range in *;
  first [ assumption
        | apply raised_ok; assumption
        | apply decayed_ok; assumption
        | apply forced_ok; assumption ].

Lemma run_op_score E o : preserves score_in_range (run_op E o).
Proof. destruct o; preserves_by score_leaf. Qed.

Lemma module_init_score E d file :
  anomaly_score (SECURITY (module_init E d file)) = Binary64.f0_0.
Proof.
  unfold module_init, SecurityEngine_init. run_monad.
  destruct (BlackBoxLedger_init E d "blackbox.log" _) as [bb w']. reflexivity.
Qed.

Lemma weight_other kind :
  kind ∉ ["replay_fail"; "rate_limit"; "rogue_node"; "network_compromise"; "civilian";
          "out_of_control"] ->
  weight kind = Binary64.f0_3.
Proof.
  intros Hk. unfold weight, severity. cbn [list_to_map foldr fst snd].
  rewrite !lookup_insert, lookup_empty.
  repeat case_decide; subst; try reflexivity; exfalso; apply Hk; set_solver.
Qed.

(** C6.  The anomaly score stays within [0.0, 3.0].  It starts at 0.0.
    [incident] adds the weight of the kind (0.7 for replay_fail, 0.5 for
    rate_limit, 0.9 for rogue_node, 0.6 for network_compromise, 1.0 for
    civilian, 0.8 for out_of_control and 0.3 for any other kind) and takes
    the minimum with 3.0; [decay_anomaly] subtracts 0.02 and takes the
    maximum with 0.0.  Whatever calls are made into the engine (the manual
    RTB key, which raises the score to at least 2.2, included), a score that
    is a float within [0.0, 3.0] stays one; so from the start of the
    program the score is always within [0.0, 3.0]. *)
Theorem anomaly_score_stays_in_range :
  (forall E d file, anomaly_score (SECURITY (module_init E d file)) = Binary64.f0_0) /\
  (weight "replay_fail" = Binary64.f0_7 /\ weight "rate_limit" = Binary64.f0_5 /\
   weight "rogue_node" = Binary64.f0_9 /\ weight "network_compromise" = Binary64.f0_6 /\
   weight "civilian" = Binary64.f1_0 /\ weight "out_of_control" = Binary64.f0_8 /\
   forall kind,
     kind ∉ ["replay_fail"; "rate_limit"; "rogue_node"; "network_compromise"; "civilian";
             "out_of_control"] ->
     weight kind = Binary64.f0_3) /\
  (forall E kind w,
     anomaly_score (SECURITY (exec (incident E kind) w))
       = Binary64.min Binary64.f3_0 (Binary64.add (anomaly_score (SECURITY w)) (weight kind))) /\
  (forall w,
     anomaly_score (SECURITY (exec decay_anomaly w))
       = Binary64.max Binary64.f0_0 (Binary64.sub (anomaly_score (SECURITY w)) Binary64.f0_02)) /\
  (forall E ops w,
     let s := anomaly_score (SECURITY w) in
     let s' := anomaly_score (SECURITY (exec (run_ops E ops) w)) in
     well_formed s = true ->
     Binary64.le Binary64.f0_0 s = true -> Binary64.le s Binary64.f3_0 = true ->
     well_formed s' = true /\
     Binary64.le Binary64.f0_0 s' = true /\ Binary64.le s' Binary64.f3_0 = true) /\
  (forall E d file ops,
     let s' := anomaly_score (SECURITY (exec (run_ops E ops) (module_init E d file))) in
     Binary64.le Binary64.f0_0 s' = true /\ Binary64.le s' Binary64.f3_0 = true).
Proof.
  assert (Hinv : forall E ops w, score_in_range w -> score_in_range (exec (run_ops E ops) w)).
  { intros E ops w. apply (preserves_for_each score_in_range ops (run_op E) (run_op_score E)). }
  split; [exact module_init_score|].
  split; [repeat split; try reflexivity; exact weight_other|].
  split; [exact incident_score|].
  split; [reflexivity|].
  split.
  - intros E ops w s s' Hwf H0 H3.
    assert (Hs : score_in_range w).
    { unfold score_in_range, score_ok, in_range. fold s. rewrite Hwf, H0, H3. reflexivity. }
    apply (Hinv E ops) in Hs. unfold score_in_range, score_ok, in_range in Hs. fold s' in Hs.
    apply andb_prop in Hs as [Hw Hs]. apply andb_prop in Hs as [Ha Hb]. auto.
  - intros E d file ops s'.
    assert (Hs : score_in_range (module_init E d file)).
    { unfold score_in_range. rewrite module_init_score. reflexivity. }
    apply (Hinv E ops) in Hs. unfold score_in_range, score_ok, in_range in Hs. fold s' in Hs.
    apply andb_prop in Hs as [Hw Hs]. apply andb_prop in Hs as [Ha Hb]. auto.
Qed.

(** The witness of C6: from a score of 2.2, four civilian incidents and two
    ticks leave a score within the range. *)
Lemma anomaly_score_stays_in_range_witness :
  let E := clock [] in
  let ops := [OpIncident "civilian"; OpIncident "civilian"; OpTick; OpIncident "civilian";
              OpIncident "civilian"; OpTick] in
  let s' := anomaly_score (SECURITY (exec (run_ops E ops) (with_score Binary64.f2_2 (boot E)))) in
  well_formed s' = true /\
  Binary64.le Binary64.f0_0 s' = true /\ Binary64.le s' Binary64.f3_0 = true.
Proof.
  intros E ops.
  apply (proj1 (proj2 (proj2 (proj2 (proj2 anomaly_score_stays_in_range)))) E ops
           (with_score Binary64.f2_2 (boot E))); reflexivity.
Defined.

(* ===================================================================== *)
(** * Further properties of the code *)
(* ===================================================================== *)

(** ** The on-screen log *)

Lemma tail_length {A} (l : list A) : length (tail l) = pred (length l).
Proof. destruct l; reflexivity. Qed.

Lemma log_event_game_log E src msg col w :
  let l := game_log w ++ [{| source := src; message := msg; color := col |}] in
  game_log (exec (log_event E src msg col) w)
    = if 16 <? Z.of_nat (length l) then tail l else l.
Proof.
  unfold log_event, BlackBoxLedger_append, exec. run_monad. cbn.
  destruct (16 <? _); cbn; destruct (env_write_ok E _); reflexivity.
Qed.

Lemma log_event_bounded E src msg col : preserves log_bounded (log_event E src msg col).
Proof.
  intros w Hw. unfold log_bounded in *. rewrite log_event_game_log. cbv zeta.
  destruct (16 <? _) eqn:Hfull.
  - rewrite tail_length, length_app. cbn [length]. lia.
  - apply Z.ltb_ge in Hfull. lia.
Qed.
#[export] Hint Resolve log_event_bounded : preserves.

Ltac log_leaf := intros ? ?; assumption.

Lemma run_op_log_bounded E o : preserves log_bounded (run_op E o).
Proof. destruct o; preserves_by log_leaf. Qed.

(** X1.  The on-screen log never holds more than 16 entries: whatever calls
    are made into the engine, a log of at most 16 entries stays one; and
    [log_event] puts the new entry last, dropping the oldest entry when the
    log was full. *)
Theorem game_log_is_bounded E ops w src msg col :
  (length (game_log w) <= 16)%nat ->
  let entry := {| source := src; message := msg; color := col |} in
  (length (game_log (exec (run_ops E ops) w)) <= 16)%nat /\
  game_log (exec (log_event E src msg col) w)
    = (if decide (length (game_log w) = 16%nat) then tail (game_log w) else game_log w)
      ++ [entry].
Proof.
  intros Hlen entry. split.
  - apply (preserves_for_each log_bounded ops (run_op E) (run_op_log_bounded E) w Hlen).
  - rewrite log_event_game_log. cbv zeta. fold entry. rewrite length_app. cbn [length].
    case_decide as H16.
    + rewrite (proj2 (Z.ltb_lt _ _)) by lia.
      destruct (game_log w); [discriminate|reflexivity].
    + rewrite (proj2 (Z.ltb_ge _ _)) by lia. reflexivity.
Qed.

(** The witness of X1: after twenty approvals the log of the program just
    loaded holds 16 entries. *)
Lemma game_log_is_bounded_witness :
  let E := clock [] in
  (length (game_log (exec (run_ops E (replicate 20 (OpAddApproval "A"))) (boot E))) <= 16)%nat /\
  game_log (exec (log_event E "SYSTEM" "x" WHITE) (boot E))
    = (if decide (length (game_log (boot E)) = 16%nat)
       then tail (game_log (boot E)) else game_log (boot E))
      ++ [{| source := "SYSTEM"; message := "x"; color := WHITE |}].
Proof.
  intros E. apply (game_log_is_bounded E _ (boot E) "SYSTEM" "x" WHITE).
  vm_compute. lia.
Defined.

(** ** The configuration and the key epoch *)

Ltac config_leaf := intros ? ?; assumption.

Lemma append_config E c text : preserves (config_is c) (BlackBoxLedger_append E text).
Proof.
  intros w Hw. unfold BlackBoxLedger_append, exec. run_monad. cbn.
  destruct (env_write_ok E _); exact Hw.
Qed.
#[export] Hint Resolve append_config : preserves.

Lemma run_op_config E c o : preserves (config_is c) (run_op E o).
Proof. destruct o; preserves_by config_leaf. Qed.

Ltac epoch_leaf :=
  intros ? ?; unfold epoch_at_least in *; fields; first [assumption | lia].

Lemma run_op_epoch E k o : preserves (epoch_at_least k) (run_op E o).
Proof. destruct o; preserves_by epoch_leaf. Qed.

Lemma rotate_keys_run E w :
  let e := SECURITY w in
  let due := Binary64.gt (Binary64.sub (env_time E (reads w)) (last_rotate e))
                         (key_rotate_interval e) in
  let w' := exec (rotate_keys_if_needed E) w in
  if due then
    key_epoch (SECURITY w') = key_epoch e + 1 /\
    last_rotate (SECURITY w') = env_time E (S (reads w)) /\
    last (game_log w')
      = Some {| source := "KMS";
                message := "Rotated keys to epoch " +:+ pretty (key_epoch e + 1) +:+ ".";
                color := CYAN |}
  else w' = set_reads (S (reads w)) w.
Proof.
  intros e due w'. subst w'. unfold rotate_keys_if_needed.
  rewrite exec_bind, exec_bind, eval_gets, exec_gets.
  change (eval (time_time E) w) with (env_time E (reads w)).
  change (SECURITY (exec (time_time E) w)) with e. fold due.
  destruct due; [|reflexivity].
  rewrite !exec_bind, !eval_gets, !exec_gets.
  match goal with |- context [exec (log_event E ?s ?m ?c) ?u] =>
    pose proof (log_event_engine E s m c u) as He;
    pose proof (log_event_last E s m c u) as Hl end.
  unfold engine_core in He. injection He as ?. 
  split; [|split].
  - etrans; [eassumption|]. reflexivity.
  - etrans; [eassumption|]. reflexivity.
  - exact Hl.
Qed.

Ltac epoch_is_leaf := intros ? ?; assumption.

Lemma update_failsafe_epoch E w :
  key_epoch (SECURITY (exec (update_failsafe E) w))
    = key_epoch (SECURITY (exec (rotate_keys_if_needed E) w)).
Proof.
  unfold update_failsafe. rewrite exec_bind.
  set (w1 := exec (rotate_keys_if_needed E) w).
  assert (H : preserves (epoch_is (key_epoch (SECURITY w1)))
                (decay_anomaly ≫= fun _ =>
                 failsafe_state ≫= fun new_mode =>
                 gets failsafe_mode ≫= fun cur =>
                 if negb (String.eqb new_mode cur) return M unit then
                   modify (set_failsafe_mode new_mode);;
                   if String.eqb new_mode "DEGRADE" then
                     log_event E "FAILSAFE" "System degrading capabilities (reduced fire rate)." ORANGE
                   else if String.eqb new_mode "HOLD" then
                     log_event E "FAILSAFE" "Hold Fire engaged for all friendlies." ORANGE;;
                     modify (set_friendly_fire_authorized false)
                   else if String.eqb new_mode "RTB" then
                     log_event E "FAILSAFE" "Return-To-Base initiated for friendlies." RED;;
                     modify (set_rtb_active true)
                   else
                     log_event E "FAILSAFE" "System recovered to normal ops." GREEN;;
                     modify (set_rtb_active false)
                 else mret tt)).
  { preserves_by epoch_is_leaf. }
  apply (H w1). reflexivity.
Qed.

(** X3.  The key epoch never decreases, whatever calls are made into the
    engine.  One tick ([update_failsafe]) raises it by one exactly when the
    clock reading minus [last_rotate] exceeds the rotation interval, and
    leaves it otherwise; no call other than a tick or the manual RTB key
    changes it. *)
Theorem key_epoch_never_decreases E :
  (forall ops w, key_epoch (SECURITY w) <= key_epoch (SECURITY (exec (run_ops E ops) w))) /\
  (forall w,
     let e := SECURITY w in
     let due := Binary64.gt (Binary64.sub (env_time E (reads w)) (last_rotate e))
                            (key_rotate_interval e) in
     key_epoch (SECURITY (exec (update_failsafe E) w))
       = key_epoch e + (if due then 1 else 0)) /\
  (forall o w,
     match o with
     | OpTick | OpForceRtb => True
     | _ => key_epoch (SECURITY (exec (run_op E o) w)) = key_epoch (SECURITY w)
     end).
Proof.
  split; [|split].
  - intros ops w.
    apply (preserves_for_each (epoch_at_least (key_epoch (SECURITY w))) ops (run_op E)
             (run_op_epoch E _) w).
    unfold epoch_at_least. lia.
  - intros w e due. rewrite update_failsafe_epoch.
    pose proof (rotate_keys_run E w) as H. cbv zeta in H. fold e due in H.
    destruct due.
    + destruct H as (H & _). exact H.
    + rewrite H. subst e. cbn [key_epoch SECURITY set_reads]. lia.
  - intros o w.
    assert (H : forall m : M unit, preserves (epoch_is (key_epoch (SECURITY w))) m ->
                key_epoch (SECURITY (exec m w)) = key_epoch (SECURITY w)).
    { intros m Hm. apply (Hm w). reflexivity. }
    destruct o; try exact I; apply H; preserves_by epoch_is_leaf.
Qed.

(** X2.  No call into the engine changes its configuration: the two times to
    live, the two quorum sizes, the rotation interval, the rate window, the
    command budget and the path of the log file are after any run what they
    were before. *)
Theorem configuration_never_changes E ops w :
  engine_config (SECURITY (exec (run_ops E ops) w)) = engine_config (SECURITY w).
Proof.
  apply (preserves_for_each (config_is (engine_config (SECURITY w))) ops (run_op E)
           (run_op_config E _) w).
  reflexivity.
Qed.

(** ** The failsafe tick *)

Ltac view_leaf := intros ? ?; assumption.

Lemma rotate_keys_view E c : preserves (failsafe_view_is c) (rotate_keys_if_needed E).
Proof. preserves_by view_leaf. Qed.

Lemma log_event_view E src msg col w :
  failsafe_view (exec (log_event E src msg col) w) = failsafe_view w.
Proof.
  pose proof (log_event_core E src msg col w) as H.
  unfold world_core in H. injection H as ?. unfold failsafe_view. congruence.
Qed.

Lemma failsafe_view_fields a b :
  failsafe_view a = failsafe_view b ->
  anomaly_score (SECURITY a) = anomaly_score (SECURITY b) /\
  failsafe_mode a = failsafe_mode b /\ rtb_active a = rtb_active b /\
  friendly_fire_authorized a = friendly_fire_authorized b.
Proof. unfold failsafe_view. intros H. injection H as ?. auto. Qed.

Lemma update_failsafe_exec E w :
  let w2 := exec decay_anomaly (exec (rotate_keys_if_needed E) w) in
  let new := eval failsafe_state w2 in
  exec (update_failsafe E) w =
    if String.eqb new (failsafe_mode w2) then w2
    else
      let w3 := set_failsafe_mode new w2 in
      if String.eqb new "DEGRADE" then
        exec (log_event E "FAILSAFE" "System degrading capabilities (reduced fire rate)." ORANGE) w3
      else if String.eqb new "HOLD" then
        set_friendly_fire_authorized false
          (exec (log_event E "FAILSAFE" "Hold Fire engaged for all friendlies." ORANGE) w3)
      else if String.eqb new "RTB" then
        set_rtb_active true
          (exec (log_event E "FAILSAFE" "Return-To-Base initiated for friendlies." RED) w3)
      else
        set_rtb_active false
          (exec (log_event E "FAILSAFE" "System recovered to normal ops." GREEN) w3).
Proof.
  intros w2 new. unfold update_failsafe.
  rewrite exec_bind, exec_bind. fold w2.
  rewrite exec_bind. fold new.
  assert (Hfs : exec failsafe_state w2 = w2)
    by (unfold exec; rewrite failsafe_state_run; reflexivity).
  rewrite Hfs, exec_bind, eval_gets, exec_gets.
  destruct (String.eqb new (failsafe_mode w2)); cbn [negb]; [reflexivity|].
  rewrite exec_bind. cbv zeta.
  change (exec (modify (set_failsafe_mode new)) w2) with (set_failsafe_mode new w2).
  destruct (String.eqb new "DEGRADE"); [reflexivity|].
  destruct (String.eqb new "HOLD"); [rewrite exec_bind; reflexivity|].
  destruct (String.eqb new "RTB"); rewrite exec_bind; reflexivity.
Qed.

Lemma failsafe_state_modes w :
  let m := eval failsafe_state w in
  m = "RTB" \/ m = "HOLD" \/ m = "DEGRADE" \/ m = "NONE".
Proof.
  unfold eval. rewrite failsafe_state_run. cbn [fst].
  repeat destruct (Binary64.ge _ _); auto.
Qed.

Lemma failsafe_state_score w w' :
  anomaly_score (SECURITY w) = anomaly_score (SECURITY w') ->
  eval failsafe_state w = eval failsafe_state w'.
Proof. intros H. unfold eval. rewrite !failsafe_state_run. cbn [fst]. by rewrite H. Qed.

(** One tick of [update_failsafe], field by field. *)
Lemma update_failsafe_run E w :
  let w' := exec (update_failsafe E) w in
  let mode := failsafe_mode w' in
  anomaly_score (SECURITY w') = decayed (anomaly_score (SECURITY w)) /\
  mode = eval failsafe_state w' /\
  if String.eqb mode (failsafe_mode w) then
    rtb_active w' = rtb_active w /\
    friendly_fire_authorized w' = friendly_fire_authorized w /\
    game_log w' = game_log (exec (rotate_keys_if_needed E) w)
  else
    rtb_active w'
      = (if String.eqb mode "RTB" then true
         else if String.eqb mode "NONE" then false else rtb_active w) /\
    friendly_fire_authorized w'
      = (if String.eqb mode "HOLD" then false else friendly_fire_authorized w) /\
    last (game_log w') = Some (failsafe_entry mode).
Proof.
  intros w' mode. subst mode w'. rewrite update_failsafe_exec. cbv zeta.
  set (w1 := exec (rotate_keys_if_needed E) w).
  set (w2 := exec decay_anomaly w1).
  assert (Hv : failsafe_view w1 = failsafe_view w)
    by (apply (rotate_keys_view E (failsafe_view w) w); reflexivity).
  unfold failsafe_view in Hv. injection Hv as Hs Hm Hr Hf.
  assert (Hs2 : anomaly_score (SECURITY w2) = decayed (anomaly_score (SECURITY w)))
    by (rewrite <- Hs; reflexivity).
  assert (Hm2 : failsafe_mode w2 = failsafe_mode w) by (rewrite <- Hm; reflexivity).
  assert (Hr2 : rtb_active w2 = rtb_active w) by (rewrite <- Hr; reflexivity).
  assert (Hf2 : friendly_fire_authorized w2 = friendly_fire_authorized w)
    by (rewrite <- Hf; reflexivity).
  assert (Hg2 : game_log w2 = game_log w1) by reflexivity.
  set (new := eval failsafe_state w2).
  assert (Hfs : forall u, anomaly_score (SECURITY u) = anomaly_score (SECURITY w2) ->
                         eval failsafe_state u = new)
    by (intros u Hu; apply failsafe_state_score, Hu).
  destruct (String.eqb new (failsafe_mode w2)) eqn:Hsame.
  - apply String.eqb_eq in Hsame. rewrite Hm2 in Hsame.
    rewrite Hm2, <- Hsame, String.eqb_refl. auto.
  - rewrite Hm2 in Hsame.
    pose proof (failsafe_state_modes w2) as Hmodes. cbv zeta in Hmodes. fold new in Hmodes.
    clearbody new w2.
    destruct Hmodes as [Hn|[Hn|[Hn|Hn]]]; subst new; cbn [String.eqb Ascii.eqb Bool.eqb].
    all: match goal with
         | |- context [exec (log_event ?E' ?s ?m ?c) ?u] =>
             destruct (failsafe_view_fields _ _ (log_event_view E' s m c u))
               as (Hl1 & Hl2 & Hl3 & Hl4);
             pose proof (log_event_last E' s m c u) as Hlast
         end.
    all: cbn [SECURITY anomaly_score failsafe_mode rtb_active friendly_fire_authorized game_log
              set_rtb_active set_friendly_fire_authorized set_failsafe_mode] in *.
    all: rewrite ?Hl2, ?Hsame; cbn [String.eqb Ascii.eqb Bool.eqb].
    all: split; [congruence|]; split; [symmetry; apply Hfs; exact Hl1|].
    all: repeat split; try congruence; exact Hlast.
Qed.

(** X4.  One tick of [update_failsafe]: the score decays once, and the mode
    recorded afterwards is the mode of the ladder for the score left.  When
    the mode did not change, the two flags are as before and only a key
    rotation can have logged.  When it changed, the change is logged last;
    [rtb_active] is set on entering RTB, cleared on returning to NONE and
    kept on entering HOLD or DEGRADE; [friendly_fire_authorized] is revoked
    on entering HOLD and on no other change. *)
Theorem failsafe_tick E w :
  let w' := exec (update_failsafe E) w in
  let mode := failsafe_mode w' in
  anomaly_score (SECURITY w') = decayed (anomaly_score (SECURITY w)) /\
  mode = eval failsafe_state w' /\
  if String.eqb mode (failsafe_mode w) then
    rtb_active w' = rtb_active w /\
    friendly_fire_authorized w' = friendly_fire_authorized w /\
    game_log w' = game_log (exec (rotate_keys_if_needed E) w)
  else
    rtb_active w'
      = (if String.eqb mode "RTB" then true
         else if String.eqb mode "NONE" then false else rtb_active w) /\
    friendly_fire_authorized w'
      = (if String.eqb mode "HOLD" then false else friendly_fire_authorized w) /\
    last (game_log w') = Some (failsafe_entry mode).
Proof. exact (update_failsafe_run E w). Qed.

(** X5.  The manual RTB key on a score below 2.2: the score is set to 2.2
    and the tick that follows decays it before the mode is read, so the
    score left is below 2.2, the mode is HOLD, and [rtb_active] is what it
    was. *)
Theorem manual_rtb_reaches_hold_only E w :
  Binary64.gt Binary64.f2_2 (anomaly_score (SECURITY w)) = true ->
  let w' := exec (force_rtb E) w in
  anomaly_score (SECURITY w') = decayed Binary64.f2_2 /\
  Binary64.lt (anomaly_score (SECURITY w')) Binary64.f2_2 = true /\
  failsafe_mode w' = "HOLD" /\
  rtb_active w' = rtb_active w.
Proof.
  intros Hlt w'. subst w'. unfold force_rtb. rewrite exec_bind, exec_bind.
  set (w1 := exec (log_event E "HUMAN-CMD" "Manual RTB initiated." ORANGE) w).
  destruct (failsafe_view_fields _ _ (log_event_view E "HUMAN-CMD" "Manual RTB initiated." ORANGE w))
    as (Hs1 & Hm1 & Hr1 & Hf1). fold w1 in Hs1, Hm1, Hr1, Hf1.
  set (w2 := exec (modify_SECURITY
                     (fun e => set_anomaly_score (Binary64.max (anomaly_score e) Binary64.f2_2) e))
                  w1).
  assert (Hs2 : anomaly_score (SECURITY w2) = Binary64.f2_2).
  { change (anomaly_score (SECURITY w2))
      with (Binary64.max (anomaly_score (SECURITY w1)) Binary64.f2_2).
    rewrite Hs1. unfold Binary64.max. rewrite Hlt. reflexivity. }
  assert (Hr2 : rtb_active w2 = rtb_active w) by (rewrite <- Hr1; reflexivity).
  pose proof (update_failsafe_run E w2) as (Hs & Hm & Hrest). clearbody w2 w1.
  set (w3 := exec (update_failsafe E) w2) in *. clearbody w3.
  rewrite Hs2 in Hs.
  assert (Hhold : failsafe_mode w3 = "HOLD").
  { rewrite Hm. unfold eval. rewrite failsafe_state_run. cbv zeta. rewrite Hs. reflexivity. }
  split; [exact Hs|]. split; [rewrite Hs; reflexivity|]. split; [exact Hhold|].
  rewrite Hhold in Hrest. destruct (String.eqb "HOLD" (failsafe_mode w2)).
  - destruct Hrest as (Hr & _). congruence.
  - destruct Hrest as (Hr & _). cbn in Hr. congruence.
Qed.

(** The witness of X5: the manual RTB key on the program just loaded. *)
Lemma manual_rtb_reaches_hold_only_witness :
  let E := clock [] in
  let w' := exec (force_rtb E) (boot E) in
  anomaly_score (SECURITY w') = decayed Binary64.f2_2 /\
  Binary64.lt (anomaly_score (SECURITY w')) Binary64.f2_2 = true /\
  failsafe_mode w' = "HOLD" /\
  rtb_active w' = rtb_active (boot E).
Proof.
  intros E. apply (manual_rtb_reaches_hold_only E (boot E)). vm_compute. reflexivity.
Defined.

(** ** The kill actions, robot by robot *)

(** X6.  What the three kill actions leave of the robots.  The unit scope
    kills the selected robot and touches no other; the army scope kills
    every robot of the army on the side of the selected robot (also when
    the selected robot itself is already dead) and nothing when none is
    selected; the fleet scope kills every robot of both armies.  A killed
    robot is not alive and keeps its name and team. *)
Theorem kill_scopes E w :
  robots (exec (kill_selected_robot E) w)
    = match selected_robot w with
      | Some s => alter Robot_kill s (robots w)
      | None => robots w
      end /\
  (forall i,
     robots (exec (kill_selected_army E) w) !! i
       = (if decide (i ∈ selected_army w) then Robot_kill else id) <$> robots w !! i) /\
  (forall i,
     robots (exec (kill_all_robots E) w) !! i
       = (if decide (i ∈ friendly_robots w ++ enemy_robots w) then Robot_kill else id)
           <$> robots w !! i) /\
  (forall r, alive (Robot_kill r) = false /\ name (Robot_kill r) = name r /\
             team (Robot_kill r) = team r).
Proof.
  split; [apply kill_selected_robot_robots|].
  split; [intros i; apply kill_selected_army_robots|].
  split; [intros i; apply kill_all_robots_robots|].
  intros r. pose proof (Robot_kill_dead r). tauto.
Qed.

Lemma kill_at_from rs0 v i : preserves (robots_from rs0 v) (kill_at i).
Proof.
  apply preserves_modify. intros w [Hv Hrs]. split; [exact Hv|].
  intros j. cbn [robots set_robots]. destruct (decide (j = i)) as [->|Hne].
  - rewrite list_lookup_alter_eq. right.
    destruct (Hrs i) as [-> | ->]; [reflexivity|].
    destruct (rs0 !! i) as [r|]; cbn; [|reflexivity].
    f_equal. apply (Robot_kill_dead r).
  - rewrite list_lookup_alter_ne by congruence. apply Hrs.
Qed.
#[export] Hint Resolve kill_at_from : preserves.

Ltac robots_leaf := intros ? ?; assumption.

Lemma run_op_robots_from E rs0 v o : preserves (robots_from rs0 v) (run_op E o).
Proof. destruct o; preserves_by robots_leaf. Qed.

(** X7.  No call into the engine does anything to a robot but kill it: after
    any run the armies and the selection are unchanged, no robot was added
    or removed, every robot has its name and team, a robot that was dead is
    untouched, and a robot that is alive is exactly as it was. *)
Theorem robots_are_only_ever_killed E ops w :
  let w' := exec (run_ops E ops) w in
  friendly_robots w' = friendly_robots w /\
  enemy_robots w' = enemy_robots w /\
  selected_robot w' = selected_robot w /\
  length (robots w') = length (robots w) /\
  forall i r, robots w !! i = Some r ->
    exists r', robots w' !! i = Some r' /\
      name r' = name r /\ team r' = team r /\
      (alive r = false -> r' = r) /\ (alive r' = true -> r' = r).
Proof.
  intros w'.
  assert (H : robots_from (robots w) (friendly_robots w, enemy_robots w, selected_robot w) w').
  { apply (preserves_for_each _ ops (run_op E) (run_op_robots_from E _ _) w).
    split; [reflexivity|]. intros i. by left. }
  destruct H as [Hv Hrs]. injection Hv as Hf He Hs.
  split; [exact Hf|]. split; [exact He|]. split; [exact Hs|]. split.
  - destruct (Nat.lt_trichotomy (length (robots w')) (length (robots w))) as [Hlt|[Heq|Hgt]];
      [|exact Heq|].
    + destruct (lookup_lt_is_Some_2 (robots w) _ Hlt) as [r Hr].
      pose proof (lookup_ge_None_2 (robots w') (length (robots w')) (Nat.le_refl _)) as Hn.
      destruct (Hrs (length (robots w'))) as [H|H]; rewrite Hn, Hr in H; discriminate.
    + destruct (lookup_lt_is_Some_2 (robots w') _ Hgt) as [r Hr].
      pose proof (lookup_ge_None_2 (robots w) (length (robots w)) (Nat.le_refl _)) as Hn.
      destruct (Hrs (length (robots w))) as [H|H]; rewrite Hn, Hr in H; discriminate.
  - intros i r Hr. pose proof (Robot_kill_dead r) as (Ha & Hn & Ht & _ & Hd).
    destruct (Hrs i) as [H|H]; rewrite Hr in H.
    + exists r. auto.
    + exists (Robot_kill r). split; [exact H|]. split; [exact Hn|]. split; [exact Ht|].
      split; [exact Hd|]. rewrite Ha. discriminate.
Qed.

(** The witness of X7: on the worked example, arming and executing the fleet
    scope leaves the friendly robot with its name and team. *)
Lemma robots_are_only_ever_killed_witness :
  let E := clock [] in
  let w := two_approvals E in
  let w' := exec (run_ops E [OpArm; OpExecute "fleet"]) w in
  exists r', robots w' !! 0%nat = Some r' /\
    name r' = "FR-Bot-00" /\ team r' = "FRIENDLY" /\
    (true = false -> r' = {| name := "FR-Bot-00"; team := "FRIENDLY"; alive := true; state := "IDLE" |}) /\
    (alive r' = true -> r' = {| name := "FR-Bot-00"; team := "FRIENDLY"; alive := true; state := "IDLE" |}).
Proof.
  intros E w w'.
  apply (proj2 (proj2 (proj2 (proj2 (robots_are_only_ever_killed E [OpArm; OpExecute "fleet"] w))))
           0%nat {| name := "FR-Bot-00"; team := "FRIENDLY"; alive := true; state := "IDLE" |}).
  vm_compute. reflexivity.
Defined.

(** ** The rate limiter *)

Lemma evict_split now window q :
  exists dropped,
    q = dropped ++ evict now window q /\
    Forall (out_of_window now window) dropped /\
    match evict now window q with
    | t :: _ => Binary64.gt (Binary64.sub now t) window = false
    | [] => True
    end.
Proof.
  induction q as [|t q IH].
  - exists []. cbn. auto.
  - cbn [evict]. destruct (Binary64.gt (Binary64.sub now t) window) eqn:Ht.
    + destruct IH as (d & Hq & Hd & Hh). exists (t :: d). split; [cbn; by f_equal|].
      split; [by constructor|exact Hh].
    + exists []. cbn. auto.
Qed.

Lemma evict_all_out now window q :
  Forall (out_of_window now window) q ->
  Binary64.gt (Binary64.sub now now) window = false ->
  evict now window (q ++ [now]) = [now].
Proof.
  intros Hq Hnow. induction Hq as [|t q Ht _ IH]; cbn.
  - by rewrite Hnow.
  - unfold out_of_window in Ht. by rewrite Ht.
Qed.

(** X8.  One call of [check_rate_limit]: the window afterwards is what is
    left of the old window followed by the new reading once the entries at
    the front that are older than the rate window have been dropped; nothing
    else is dropped and nothing is reordered, the entry left at the front is
    within the window, and the answer is whether at most [max_cmds] entries
    are left.  When every old entry is out of the window, the window is the
    new reading alone. *)
Theorem rate_window_slides E w :
  let e := SECURITY w in
  let now := env_time E (reads w) in
  let w' := exec (check_rate_limit E) w in
  let q' := cmd_times (SECURITY w') in
  eval (check_rate_limit E) w = (Z.of_nat (length q') <=? max_cmds e) /\
  (exists dropped,
     cmd_times e ++ [now] = dropped ++ q' /\ Forall (out_of_window now (rate_window e)) dropped) /\
  match q' with
  | t :: _ => Binary64.gt (Binary64.sub now t) (rate_window e) = false
  | [] => True
  end /\
  (Forall (out_of_window now (rate_window e)) (cmd_times e) ->
   Binary64.gt (Binary64.sub now now) (rate_window e) = false ->
   q' = [now] /\ eval (check_rate_limit E) w = (1 <=? max_cmds e)).
Proof.
  intros e now w' q'. subst q' w'. unfold eval, exec. rewrite check_rate_limit_run.
  cbn [fst snd SECURITY set_SECURITY cmd_times set_cmd_times]. fold e now.
  split; [reflexivity|].
  destruct (evict_split now (rate_window e) (cmd_times e ++ [now])) as (d & Hq & Hd & Hh).
  split; [exists d; auto|]. split; [exact Hh|].
  intros Hall Hnow. rewrite (evict_all_out _ _ _ Hall Hnow). auto.
Qed.

Lemma check_rate_limit_n_cons E n w :
  check_rate_limit_n E (S n) w
    = (eval (check_rate_limit E) w :: eval (check_rate_limit_n E n) (exec (check_rate_limit E) w),
       exec (check_rate_limit_n E n) (exec (check_rate_limit E) w)).
Proof.
  rewrite run_pair. cbn [check_rate_limit_n].
  rewrite !eval_bind, !exec_bind. reflexivity.
Qed.

Lemma burst_run E n : forall w j t,
  cmd_times (SECURITY w) = replicate j t ->
  (forall i, (i < n)%nat -> env_time E (reads w + i) = t) ->
  Binary64.gt (Binary64.sub t t) (rate_window (SECURITY w)) = false ->
  eval (check_rate_limit_n E n) w
    = map (fun i => Z.of_nat (j + S i) <=? max_cmds (SECURITY w)) (seq 0 n) /\
  cmd_times (SECURITY (exec (check_rate_limit_n E n) w)) = replicate (j + n) t.
Proof.
  induction n as [|n IH]; intros w j t Hq Ht Hfresh.
  - cbn. rewrite Nat.add_0_r. auto.
  - unfold eval, exec. rewrite check_rate_limit_n_cons. cbn [fst snd].
    assert (Hnow : env_time E (reads w) = t) by (rewrite <- (Ht O) by lia; f_equal; lia).
    assert (Hrun : check_rate_limit E w
                   = (Z.of_nat (S j) <=? max_cmds (SECURITY w),
                      set_SECURITY (set_cmd_times (replicate (S j) t) (SECURITY w))
                        (set_reads (S (reads w)) w))).
    { rewrite check_rate_limit_run. cbv zeta. rewrite Hnow, Hq.
      assert (Hrep : replicate j t ++ [t] = replicate (S j) t).
      { clear. induction j; cbn; [reflexivity|]. by f_equal. }
      rewrite Hrep. cbn [replicate evict]. rewrite Hfresh. cbn [length].
      rewrite length_replicate. reflexivity. }
    unfold eval, exec. rewrite Hrun. cbn [fst snd].
    match goal with |- context [check_rate_limit_n E n ?u] =>
      destruct (IH u (S j) t) as [He Hc] end.
    + reflexivity.
    + intros i Hi. cbn [reads set_SECURITY set_reads].
      rewrite <- (Ht (S i)) by lia. f_equal. lia.
    + exact Hfresh.
    + unfold eval, exec in He, Hc. rewrite He, Hc.
      cbn [SECURITY set_SECURITY max_cmds set_cmd_times seq map].
      split.
      * f_equal; [do 2 f_equal; lia|].
        rewrite <- seq_shift, map_map. apply map_ext. intros i. do 2 f_equal. lia.
      * f_equal. lia.
Qed.

(** X9.  A burst: [n] calls of [check_rate_limit] at one and the same clock
    reading, on an empty window.  The [k]-th call is allowed exactly when
    [k <= max_cmds], and every call is recorded, the refused ones too: the
    window ends with [n] entries. *)
Theorem rate_limit_burst E w n t :
  cmd_times (SECURITY w) = [] ->
  (forall i, (i < n)%nat -> env_time E (reads w + i) = t) ->
  Binary64.gt (Binary64.sub t t) (rate_window (SECURITY w)) = false ->
  eval (check_rate_limit_n E n) w
    = map (fun i => Z.of_nat (S i) <=? max_cmds (SECURITY w)) (seq 0 n) /\
  cmd_times (SECURITY (exec (check_rate_limit_n E n) w)) = replicate n t.
Proof.
  intros Hq Ht Hfresh. apply (burst_run E n w O t); assumption.
Qed.

(** The witness of X9: ten calls at t=0 on the program just loaded. *)
Lemma rate_limit_burst_witness :
  let E := clock [] in
  eval (check_rate_limit_n E 10) (boot E)
    = map (fun i => Z.of_nat (S i) <=? max_cmds (SECURITY (boot E))) (seq 0 10) /\
  cmd_times (SECURITY (exec (check_rate_limit_n E 10) (boot E))) = replicate 10 (Binary64.of_Z 0).
Proof.
  intros E. apply (rate_limit_burst E (boot E) 10 (Binary64.of_Z 0)).
  - reflexivity.
  - intros i _. cbn. by destruct (_ + i)%nat.
  - vm_compute. reflexivity.
Defined.

(** The witness of X8: two calls at t=0, then one at t=7, past the rate
    window of 6 s. *)
Lemma rate_window_slides_witness :
  let E := clock [0; 0; 0; 7] in
  let w := exec (check_rate_limit_n E 2) (boot E) in
  cmd_times (SECURITY (exec (check_rate_limit E) w)) = [Binary64.of_Z 7] /\
  eval (check_rate_limit E) w = (1 <=? max_cmds (SECURITY w)).
Proof.
  intros E w.
  apply (proj2 (proj2 (proj2 (rate_window_slides E w)))).
  - vm_compute. repeat constructor.
  - vm_compute. reflexivity.
Defined.

(** ** The black box ledger *)

Lemma string_app_assoc (a b c : string) : (a +:+ b) +:+ c = a +:+ b +:+ c.
Proof.
  induction a as [|x a IH]; [reflexivity|].
  change (String x ((a +:+ b) +:+ c) = String x (a +:+ b +:+ c)). now rewrite IH.
Qed.

Lemma string_app_nil_r (a : string) : a +:+ EmptyString = a.
Proof.
  induction a as [|x a IH]; [reflexivity|].
  change (String x (a +:+ EmptyString) = String x a). now rewrite IH.
Qed.

Lemma chain_text_snoc h ps p :
  chain_text h (ps ++ [p])
    = chain_text h ps +:+ entry_line (entry_hash (chain_end h ps) p) p.
Proof.
  revert h. induction ps as [|q ps IH]; intros h; cbn [chain_text chain_end app].
  - now rewrite string_app_nil_r.
  - now rewrite IH, string_app_assoc.
Qed.

Lemma chain_end_snoc h ps p : chain_end h (ps ++ [p]) = entry_hash (chain_end h ps) p.
Proof. revert h. induction ps as [|q ps IH]; intros h; cbn; [reflexivity|apply IH]. Qed.

Lemma append_extends E f0 h0 text : preserves (ledger_extends f0 h0) (BlackBoxLedger_append E text).
Proof.
  intros w (ps & Hf & Hh). unfold BlackBoxLedger_append, exec. run_monad. cbn.
  destruct (env_write_ok E _); cbn.
  - exists (ps ++ [env_strftime E (reads w) +:+ " " +:+ text]).
    unfold file_text in *. cbn. rewrite chain_text_snoc, chain_end_snoc, <- Hh, Hf.
    split; [|reflexivity]. now rewrite string_app_assoc.
  - exists ps. split; assumption.
Qed.
#[export] Hint Resolve append_extends : preserves.

















